(** * umake.ui.cli: the command line front end of ubuntu-make

    A shallow embedding of [src/umake/ui/cli/__init__.py]:
    - [mangle_args_for_default_framework], the argument rewriting scan;
    - [is_first_version_higher], the dotted version comparison;
    - [CliUI._display], the dispatch over interaction kinds;
    - the [--update] branch of [main], with [pretty_print_versions] and
      [run_command_for_args];
    - [get_frameworks_list_output], the three listings;
    - [main], from the rewriting of the arguments to the command it runs.

    Python strings are [string]s (characters are code points below 256),
    dictionaries are [gmap]s, [None] is [None], and an exception is the
    [Raise] constructor of [result]. *)

From Stdlib Require Import ZArith Lia Ascii DecimalString.
From stdpp Require Import base option list strings gmap sorting.

Open Scope string_scope.
Open Scope list_scope.

(** ** Collaborators: the category registry

    [BaseCategory.categories] is a dictionary from category name to a
    category object; the resolver reads its [frameworks] dictionary and its
    [default_framework] (an object with a [prog_name], or [None]). *)

Record framework := {
  prog_name : string;
  supports_update : bool;
  (* framework.get_current_user_version(install_path) *)
  get_current_user_version : string -> option string;
  (* framework.get_latest_version(), read once the fetch has completed *)
  get_latest_version : option string
}.

Record category := {
  frameworks : gmap string framework;
  default_framework : option framework
}.

Abbreviation registry := (gmap string category).

(** ** Python results *)

Inductive exn :=
| ValueError (msg : string)
| TypeError (msg : string)
| KeyError (key : string)
| InputError (msg : string)
| EOFError
| SystemExit (code : Z).

Inductive result (A : Type) :=
| Ok (a : A)
| Raise (e : exn).
Arguments Ok {A} a.
Arguments Raise {A} e.

(** What the program does to the outside world, in order. *)
Inductive event :=
| Print (line : string)
| Input (prompt answer : string)
| Rlinput (prompt prefill answer : string)
| LogError (msg : string)
| MainLoopQuit (status_code : Z)
| NewProgressBar
| Pulse
| DelayedDisplay
| FetchLatest (category_name framework_name : string)
| ParseArgs (argv : list string)
| NewCliUI
| RunCommandForArgs (category_name framework_name : string).

(** Modelled from the spec: [MainLoop.quit] of [umake.tools], which is not
    among the sources. It moves the main loop to quitting and hands its
    status code to the process boundary: the exit status a trace asks for is
    that of its first [MainLoopQuit]. *)
Fixpoint exit_status (evs : list event) : option Z :=
  match evs with
  | [] => None
  | MainLoopQuit status_code :: _ => Some status_code
  | _ :: rest => exit_status rest
  end.

#[global] Instance result_ret : MRet result := fun A a => Ok a.

#[global] Instance result_bind : MBind result := fun A B k r =>
  match r with
  | Ok a => k a
  | Raise e => Raise e
  end.

Fixpoint mapM_result {A B} (f : A -> result B) (l : list A) : result (list B) :=
  match l with
  | [] => Ok []
  | x :: l' => y ← f x; ys ← mapM_result f l'; Ok (y :: ys)
  end.

(** ** String primitives *)

(** [arg.startswith('-')] *)
Definition startswith_dash (arg : string) : bool :=
  match arg with
  | String "-"%char _ => true
  | _ => false
  end.

(** [os.path.sep in arg]; the separator is ["/"] on the platforms umake
    runs on. *)
Fixpoint contains_sep (arg : string) : bool :=
  match arg with
  | EmptyString => false
  | String c rest => if Ascii.eqb c "/"%char then true else contains_sep rest
  end.

(** [arg in ("--remove", "-r")] *)
Definition is_remove (arg : string) : bool :=
  (arg =? "--remove") || (arg =? "-r").

(** Truth value of [category_name], which is [None] or a string: the empty
    string is false as well. *)
Definition truthy (name : option string) : bool :=
  match name with
  | None => false
  | Some s => negb (s =? "")
  end.

(** ** mangle_args_for_default_framework *)

Module Mangle.

(** The local variables of the scan. *)
Record scan := {
  result_args : list string;
  skip_all : bool;
  pending_args : list string;
  category_name : option string;
  framework_completed : bool;
  args_to_append : list string
}.

Definition init : scan :=
  {| result_args := []; skip_all := false; pending_args := [];
     category_name := None; framework_completed := false;
     args_to_append := [] |}.

(** [arg in BaseCategory.categories.keys()] *)
Definition is_category (reg : registry) (arg : string) : bool :=
  bool_decide (is_Some (reg !! arg)).

(** [arg in BaseCategory.categories[name].frameworks.keys()] *)
Definition is_framework (reg : registry) (name arg : string) : bool :=
  match reg !! name with
  | Some cat => bool_decide (is_Some (frameworks cat !! arg))
  | None => false
  end.

(** [BaseCategory.categories[name].default_framework], as its [prog_name] *)
Definition default_of (reg : registry) (name : string) : option string :=
  cat ← reg !! name; prog_name <$> default_framework cat.

Definition set_skip_all (st : scan) : scan :=
  {| result_args := result_args st; skip_all := true;
     pending_args := pending_args st; category_name := category_name st;
     framework_completed := framework_completed st;
     args_to_append := args_to_append st |}.

Definition push_pending (arg : string) (st : scan) : scan :=
  {| result_args := result_args st; skip_all := skip_all st;
     pending_args := pending_args st ++ [arg];
     category_name := category_name st;
     framework_completed := framework_completed st;
     args_to_append := args_to_append st |}.

Definition push_result (arg : string) (st : scan) : scan :=
  {| result_args := result_args st ++ [arg]; skip_all := skip_all st;
     pending_args := pending_args st; category_name := category_name st;
     framework_completed := framework_completed st;
     args_to_append := args_to_append st |}.

Definition set_completed (st : scan) : scan :=
  {| result_args := result_args st; skip_all := skip_all st;
     pending_args := pending_args st; category_name := category_name st;
     framework_completed := true;
     args_to_append := args_to_append st |}.

(** One iteration of [for arg in args]. *)
Definition step (reg : registry) (st : scan) (arg : string) : scan :=
  if negb (truthy (category_name st)) && is_remove arg then
    {| result_args := result_args st; skip_all := skip_all st;
       pending_args := pending_args st; category_name := category_name st;
       framework_completed := framework_completed st;
       args_to_append := args_to_append st ++ [arg] |}
  else if negb (startswith_dash arg) && negb (skip_all st) then
    if negb (truthy (category_name st)) then
      if is_category reg arg then
        {| result_args := (result_args st ++ pending_args st) ++ [arg];
           skip_all := skip_all st;
           pending_args := [];
           category_name := Some arg;
           framework_completed := framework_completed st;
           args_to_append := args_to_append st |}
      else push_pending arg (set_skip_all st)
    else if negb (framework_completed st) then
      let name := default "" (category_name st) in
      let st := set_completed st in
      if is_framework reg name arg then push_result arg st
      else
        match default_of reg name with
        | Some dflt =>
            push_pending arg
              (if contains_sep arg then push_result dflt st else st)
        | None => push_pending arg (set_skip_all st)
        end
    else push_pending arg st
  else push_pending arg st.

(** The code after the loop. *)
Definition finish (reg : registry) (st : scan) : list string :=
  let result_args :=
    if truthy (category_name st) && negb (framework_completed st) then
      match default_of reg (default "" (category_name st)) with
      | Some dflt => result_args st ++ [dflt]
      | None => result_args st
      end
    else result_args st in
  (result_args ++ pending_args st) ++ args_to_append st.

Definition mangle_args_for_default_framework
    (reg : registry) (args : list string) : list string :=
  finish reg (fold_left (step reg) args init).

(** A token the scan takes as the category: a non-option token that is a
    key of the registry. The name is not empty, so that [category_name] is
    true once it is set. *)
Definition category_token (reg : registry) (arg : string) : Prop :=
  startswith_dash arg = false /\ arg <> "" /\ is_Some (reg !! arg).

(** Option-like tokens: the ones with a leading dash. *)
Definition options (args : list string) : Prop :=
  Forall (fun arg => startswith_dash arg = true) args.

(** The tokens of [args] the scan defers while no category is set, and the
    other ones. *)
Definition deferred (args : list string) : list string :=
  List.filter is_remove args.

Definition kept (args : list string) : list string :=
  List.filter (fun arg => negb (is_remove arg)) args.

(** What follows the category token in the output, for the tokens [post]
    that follow it in the input: the default goes right after the category
    when [post] holds options only, or when its first positional token is
    no known framework but holds a path separator; a known framework goes
    ahead of the options before it; the rest keeps its order. *)
Definition body_after (reg : registry) (c : string) (post body : list string) : Prop :=
  (options post /\
   body = from_option (fun d => [d]) [] (default_of reg c) ++ post)
  \/
  (exists opts t rest,
     post = opts ++ t :: rest /\ options opts /\ startswith_dash t = false /\
     body = if is_framework reg c t then t :: opts ++ rest
            else match default_of reg c with
                 | Some d => if contains_sep t then d :: post else post
                 | None => post
                 end).

(** Everything the scan holds, in output order. *)
Definition contents (st : scan) : list string :=
  result_args st ++ pending_args st ++ args_to_append st.

(** The scan invariant: what the scan holds is what it has read, with at
    most the default of the category in hand added, and that only once the
    first positional token after the category has been seen; the category
    in hand is a token that was read and a key of the registry. *)
Definition scanned (reg : registry) (st : scan) (read : list string) : Prop :=
  (contents st ≡ₚ read \/
   (framework_completed st = true /\
    exists c d, category_name st = Some c /\ truthy (Some c) = true /\
                default_of reg c = Some d /\ contents st ≡ₚ d :: read))
  /\ (forall c, category_name st = Some c -> c ∈ read /\ is_Some (reg !! c)).

End Mangle.

(** The rewriting done by [main] before parsing: [sys.argv[1:]] goes
    through the resolver unless it holds the token [--help]. *)
Definition arg_to_parse (reg : registry) (argv : list string) : list string :=
  if bool_decide ("--help" ∈ argv) then argv
  else Mangle.mangle_args_for_default_framework reg argv.

(** A small registry for examples: category [cat] with frameworks [dflt]
    (its default, whose installed version cannot be read) and [fw];
    category [bare] with framework [only] and no default. *)
Module Demo.

Definition fw_of (name : string) (user latest : option string) : framework :=
  {| prog_name := name; supports_update := true;
     get_current_user_version := fun _ => user;
     get_latest_version := latest |}.

Definition dflt := fw_of "dflt" None (Some "1.0").
Definition fw := fw_of "fw" (Some "1.9") (Some "1.10").
Definition only := fw_of "only" (Some "1.0") (Some "2.0").

Definition cat : category :=
  {| frameworks := <["dflt" := dflt]> (<["fw" := fw]> ∅);
     default_framework := Some dflt |}.

Definition bare : category :=
  {| frameworks := <["only" := only]> ∅; default_framework := None |}.

Definition reg : registry := <["cat" := cat]> (<["bare" := bare]> ∅).

End Demo.

(** ** is_first_version_higher *)

Module Version.

(** [s.split('.')]: never empty, [""] splits to [[""]]. *)
Fixpoint split_dot (s : string) : list string :=
  match s with
  | EmptyString => [""]
  | String c rest =>
      if Ascii.eqb c "."%char then "" :: split_dot rest
      else
        match split_dot rest with
        | seg :: segs => String c seg :: segs
        | [] => [String c ""]
        end
  end.

(** Characters [int] strips from both ends of its argument: the ASCII
    white space (tab to carriage return, and the space), and the two spaces
    among the code points from 127 on (next line and no-break space), which
    the conversion of a string that is not ASCII turns into spaces first. *)
Definition is_space (c : ascii) : bool :=
  let n := nat_of_ascii c in
  (((9 <=? n) && (n <=? 13)) || (n =? 32) || (n =? 133) || (n =? 160))%nat.

Definition digit_val (c : ascii) : option Z :=
  let n := nat_of_ascii c in
  if ((48 <=? n) && (n <=? 57))%nat then Some (Z.of_nat n - 48)%Z else None.

Fixpoint lstrip (l : list ascii) : list ascii :=
  match l with
  | c :: rest => if is_space c then lstrip rest else l
  | [] => []
  end.

Definition strip (l : list ascii) : list ascii :=
  rev (lstrip (rev (lstrip l))).

(** Decimal digits, single underscores allowed between two digits. *)
Fixpoint digits (acc : Z) (after_digit : bool) (l : list ascii) : option Z :=
  match l with
  | [] => if after_digit then Some acc else None
  | c :: rest =>
      if Ascii.eqb c "_"%char then
        if after_digit then digits acc false rest else None
      else
        match digit_val c with
        | Some d => digits (10 * acc + d)%Z true rest
        | None => None
        end
  end.

(** The digits and underscores a literal starts with, and what follows
    them. *)
Fixpoint digit_run (l : list ascii) : list ascii * list ascii :=
  match l with
  | c :: rest =>
      if bool_decide (is_Some (digit_val c)) || Ascii.eqb c "_"%char then
        let '(run, tail) := digit_run rest in (c :: run, tail)
      else ([], l)
  | [] => ([], [])
  end.

Definition count_digits (run : list ascii) : nat :=
  length (List.filter (fun c => bool_decide (is_Some (digit_val c))) run).

(** [sys.get_int_max_str_digits()], at the interpreter's default. *)
Definition max_str_digits : nat := 4300.

Inductive literal :=
| Invalid
| TooLong (digits : nat)
| Value (n : Z).

(** What follows the sign: a run of digits with single underscores between
    two digits; a run of more digits than the limit is refused before
    anything after the run is looked at. *)
Definition magnitude (body : list ascii) : literal :=
  let '(run, tail) := digit_run body in
  match digits 0 false run with
  | None => Invalid
  | Some n =>
      if (max_str_digits <? count_digits run)%nat then TooLong (count_digits run)
      else match tail with
           | [] => Value n
           | _ => Invalid
           end
  end.

(** [repr(s)] of a string: in single quotes, or in double quotes when the
    string holds a single quote and no double quote; the quote, the
    backslash and what cannot be printed are escaped. *)
Definition double_quote : ascii := ascii_of_nat 34.

Definition hex_digit (n : nat) : ascii :=
  nth n (String.list_ascii_of_string "0123456789abcdef") "0"%char.

Definition printable (c : ascii) : bool :=
  let n := nat_of_ascii c in
  (((32 <=? n) && (n <? 127)) || ((161 <=? n) && negb (n =? 173)))%nat.

Definition escaped (quote c : ascii) : string :=
  let n := nat_of_ascii c in
  if Ascii.eqb c quote || Ascii.eqb c "\"%char then String "\" (String c "")
  else if (n =? 9)%nat then "\t"
  else if (n =? 10)%nat then "\n"
  else if (n =? 13)%nat then "\r"
  else if printable c then String c ""
  else String "\" (String "x" (String (hex_digit (n / 16)) (String (hex_digit (n mod 16)) ""))).

Definition repr (s : string) : string :=
  let chars := String.list_ascii_of_string s in
  let quote :=
    if existsb (Ascii.eqb "'"%char) chars
       && negb (existsb (Ascii.eqb double_quote) chars)
    then double_quote else "'"%char in
  String quote (String.concat "" (map (escaped quote) chars)) +:+ String quote "".

Definition decimal (n : nat) : string := NilEmpty.string_of_uint (Nat.to_uint n).

(** [int(s)] on a string, base 10. Both errors are [ValueError]s; the
    message for a literal that is not one shows at most 200 characters of
    the [repr] of the string. *)
Definition int (s : string) : result Z :=
  let body := strip (String.list_ascii_of_string s) in
  let parsed :=
    match body with
    | "+"%char :: rest => magnitude rest
    | "-"%char :: rest =>
        match magnitude rest with
        | Value n => Value (- n)
        | other => other
        end
    | _ => magnitude body
    end in
  match parsed with
  | Value n => Ok n
  | TooLong digits =>
      Raise (ValueError
               ("Exceeds the limit (" +:+ decimal max_str_digits +:+
                " digits) for integer string conversion: value has " +:+
                decimal digits +:+
                " digits; use sys.set_int_max_str_digits() to increase the limit"))
  | Invalid =>
      Raise (ValueError
               ("invalid literal for int() with base 10: " +:+
                String.substring 0 200 (repr s)))
  end.

(** [list(map(int, version.split('.')))] *)
Definition parts (version : string) : result (list Z) :=
  mapM_result int (split_dot version).

(** The [for v1, v2 in zip(...)] loop; [None] when it runs to its end. *)
Fixpoint first_difference (pairs : list (Z * Z)) : option bool :=
  match pairs with
  | [] => None
  | (v1, v2) :: rest =>
      if (v1 >? v2)%Z then Some true
      else if (v1 <? v2)%Z then Some false
      else first_difference rest
  end.

Definition compare_parts (v1_parts v2_parts : list Z) : bool :=
  match first_difference (zip v1_parts v2_parts) with
  | Some b => b
  | None => (length v2_parts <? length v1_parts)%nat
  end.

Definition is_first_version_higher
    (version1 version2 : option string) : result bool :=
  match version2 with
  | None => Ok true
  | Some version2 =>
      match version1 with
      | None => Ok false
      | Some version1 =>
          v1_parts ← parts version1;
          v2_parts ← parts version2;
          Ok (compare_parts v1_parts v2_parts)
      end
  end.

Definition is_digit (c : ascii) : Prop := is_Some (digit_val c).

(** A segment made of one or more of the digits 0 to 9. *)
Fixpoint all_digits (s : string) : bool :=
  match s with
  | EmptyString => true
  | String c rest => bool_decide (is_Some (digit_val c)) && all_digits rest
  end.

Definition digit_string (s : string) : bool :=
  negb (s =? "") && all_digits s.

(** A version string whose segments are non-negative integers. *)
Definition well_formed (version : string) : bool :=
  forallb digit_string (split_dot version).

(** The comparison in the words of its description, on the integer
    segments of the two versions: the first pair of segments that differ
    decides, and when one sequence is a strict prefix of the other, the
    longer one is the higher. *)
Definition decided_by_segments (p1 p2 : list Z) (higher : bool) : Prop :=
  (forall pre x y s1 s2,
     p1 = pre ++ x :: s1 -> p2 = pre ++ y :: s2 -> x <> y ->
     higher = bool_decide (y < x)%Z)
  /\ (forall s, s <> [] -> p1 = p2 ++ s -> higher = true)
  /\ (forall s, s <> [] -> p2 = p1 ++ s -> higher = false).

(** The number a string of digits writes in base ten: each digit counts
    for ten to the power of the number of digits after it. *)
Fixpoint numeral_value (s : string) : Z :=
  match s with
  | EmptyString => 0
  | String c rest =>
      ((Z.of_nat (nat_of_ascii c) - 48) * 10 ^ Z.of_nat (String.length rest)
       + numeral_value rest)%Z
  end.

(** The integer segments a version string writes. *)
Definition segment_values (version : string) : list Z :=
  map numeral_value (split_dot version).

(** No segment has more digits than [int] accepts. *)
Definition within_limit (version : string) : bool :=
  forallb (fun seg => (String.length seg <=? max_str_digits)%nat) (split_dot version).

(** A version of one segment with one digit more than the limit. *)
Definition long_version : string :=
  String.concat "" (replicate (S max_str_digits) "1").

End Version.

(** ** CliUI._display *)

Module Display.

(** The interaction kinds of [umake.interactions], with the attributes
    [_display] reads; [Unexpected] stands for an object of any other class,
    with its [str]. Callbacks answer [Ok] or raise. One pulse of the bar
    succeeds ([Pulsed]), or raises [StopIteration] ([Exhausted]) or
    [AttributeError] ([NoBar]). *)
Inductive pulse := Pulsed | Exhausted | NoBar.

Inductive content :=
| InputText (content default_input : string)
    (run_callback : string -> result unit)
| LicenseAgreement (content input : string) (choose : string -> result unit)
| TextWithChoices (prompt : string) (choose : string -> result unit)
| DisplayMessage (text : string)
| UnknownProgress (bar : bool) (next : pulse)
| Unexpected (repr : string).

(** [isinstance] against the five classes [_display] knows. *)
Definition handled (c : content) : bool :=
  match c with
  | Unexpected _ => false
  | _ => true
  end.

(** What [_display] returns: [None] after [break], or [False]. *)
Inductive returned := ReturnNone | ReturnFalse.

Record outcome := {
  events : list event;
  stdin_left : list string;
  value : result returned
}.

Definition prepend (evs : list event) (o : outcome) : outcome :=
  {| events := evs ++ events o; stdin_left := stdin_left o; value := value o |}.

(** The [while True] loop for a kind that reads an answer and hands it to a
    callback: [shown] is printed before each read, [InputError] from the
    callback is logged and the request displayed again, any other exception
    leaves the loop; at the end of [stdin] the read raises [EOFError]. *)
Fixpoint prompt_loop (shown : list event) (read : string -> event)
    (callback : string -> result unit) (stdin : list string) : outcome :=
  match stdin with
  | [] => {| events := shown; stdin_left := []; value := Raise EOFError |}
  | answer :: rest =>
      match callback answer with
      | Ok _ =>
          {| events := shown ++ [read answer]; stdin_left := rest;
             value := Ok ReturnNone |}
      | Raise (InputError msg) =>
          prepend (shown ++ [read answer; LogError msg])
            (prompt_loop shown read callback rest)
      | Raise e =>
          {| events := shown ++ [read answer]; stdin_left := rest;
             value := Raise e |}
      end
  end.

Definition _display (contentType : content) (stdin : list string) : outcome :=
  match contentType with
  | InputText content default_input run_callback =>
      prompt_loop [] (Rlinput content default_input) run_callback stdin
  | LicenseAgreement content input choose =>
      prompt_loop [Print content] (Input input) choose stdin
  | TextWithChoices prompt choose =>
      prompt_loop [] (Input prompt) choose stdin
  | DisplayMessage text =>
      {| events := [Print text]; stdin_left := stdin; value := Ok ReturnNone |}
  | UnknownProgress bar next =>
      let created := if bar then [] else [NewProgressBar] in
      match next with
      | Pulsed =>
          {| events := created ++ [Pulse; DelayedDisplay];
             stdin_left := stdin; value := Ok ReturnFalse |}
      | Exhausted | NoBar =>
          {| events := created ++ [Pulse];
             stdin_left := stdin; value := Ok ReturnFalse |}
      end
  | Unexpected repr =>
      {| events :=
           [LogError ("Unexcepted content type to display to CLI UI: " +:+ repr);
            MainLoopQuit 1];
         stdin_left := stdin; value := Ok ReturnNone |}
  end.

End Display.

(** ** get_frameworks_list_output *)

Module Listing.

(** Modelled from the spec: the status of a category, the
    not-installed / partially-installed / fully-installed enum of
    [BaseCategory] in [umake.frameworks], which is not among the sources;
    [OTHER_STATUS] stands for any value that is none of the three
    constants. *)
Inductive install_status :=
| NOT_INSTALLED
| PARTIALLY_INSTALLED
| FULLY_INSTALLED
| OTHER_STATUS.

(** The dictionaries of [list_frameworks()], with the keys read here. *)
Record framework_dict := {
  fd_framework_name : string;
  fd_framework_description : string;
  fd_install_path : string;
  fd_is_installed : bool;
  fd_is_installable : bool
}.

Record category_dict := {
  cd_category_name : string;
  cd_category_description : string;
  cd_is_installed : install_status;
  cd_frameworks : list framework_dict
}.

(** The three flags of the parsed arguments the function reads. *)
Record list_flags := {
  args_list : bool;
  args_list_installed : bool;
  args_list_available : bool
}.

(** [sorted(items, key=...)] with a string key: a stable sort by code point
    order. *)
Fixpoint insert_by {A} (key : A -> string) (x : A) (l : list A) : list A :=
  match l with
  | [] => [x]
  | y :: rest =>
      if String.leb (key x) (key y) then x :: l
      else y :: insert_by key x rest
  end.

Definition sorted_by {A} (key : A -> string) (l : list A) : list A :=
  foldr (insert_by key) [] l.

(** The order of the sort, on the items. *)
Definition key_le {A} (key : A -> string) (x y : A) : Prop :=
  String.le (key x) (key y).

Definition tab : string := String (ascii_of_nat 9) "".
Definition newline : string := String (ascii_of_nat 10) "".

Section WithGettext.

(** [_], the translation of a message. *)
Variable gettext : string -> string.

(** The body of the loop over the frameworks of a category, when listing
    all or the available ones. *)
Definition framework_line (list_available : bool)
    (print_result : string) (framework : framework_dict) : string :=
  if list_available && negb (fd_is_installable framework) then print_result
  else
    let print_result :=
      print_result +:+ tab +:+ fd_framework_name framework +:+ ": " +:+
      fd_framework_description framework in
    let print_result :=
      if negb (fd_is_installable framework) then
        gettext (print_result +:+ " [not installable on this machine]")
      else if fd_is_installed framework then
        gettext (print_result +:+ " [installed]")
      else print_result in
    print_result +:+ newline.

(** The body of the loop over the categories, when listing all or the
    available ones. *)
Definition category_block (list_available : bool)
    (print_result : string) (category : category_dict) : string :=
  if (cd_category_name category =? "main")
     && (length (cd_frameworks category) =? 0)%nat then print_result
  else
    let print_result :=
      print_result +:+ cd_category_name category +:+ ": " +:+
      cd_category_description category in
    let cat_is_installed :=
      match cd_is_installed category with
      | NOT_INSTALLED => gettext "not installed"
      | PARTIALLY_INSTALLED => gettext "partially installed"
      | FULLY_INSTALLED => gettext "fully installed"
      | OTHER_STATUS => ""
      end in
    let print_result :=
      if negb (cat_is_installed =? "") then
        print_result +:+ " [" +:+ cat_is_installed +:+ "]"
      else print_result in
    let print_result := print_result +:+ newline in
    fold_left (framework_line list_available)
      (sorted_by fd_framework_name (cd_frameworks category)) print_result.

(** The body of the inner loop when listing the installed frameworks. *)
Definition installed_lines (print_result : string) (framework : framework_dict) : string :=
  if fd_is_installed framework then
    (print_result +:+ fd_framework_name framework +:+ ": " +:+
     fd_framework_description framework +:+ newline)
    +:+ tab +:+ gettext "path" +:+ ": " +:+ fd_install_path framework +:+ newline
  else print_result.

Definition installed_block (print_result : string) (category : category_dict) : string :=
  fold_left installed_lines
    (sorted_by fd_framework_name (cd_frameworks category)) print_result.

(** [categories] is what [list_frameworks()] returns. *)
Definition get_frameworks_list_output
    (args : list_flags) (categories : list category_dict) : string :=
  let print_result := "" in
  if args_list args || args_list_available args then
    fold_left (category_block (args_list_available args))
      (sorted_by cd_category_name categories) print_result
  else if args_list_installed args then
    let print_result :=
      fold_left installed_block (sorted_by cd_category_name categories) print_result in
    if print_result =? "" then gettext "No frameworks are currently installed"
    else print_result
  else print_result.

End WithGettext.

(** A category without the frameworks that cannot be installed on this
    machine. *)
Definition installable_only (category : category_dict) : category_dict :=
  {| cd_category_name := cd_category_name category;
     cd_category_description := cd_category_description category;
     cd_is_installed := cd_is_installed category;
     cd_frameworks := List.filter fd_is_installable (cd_frameworks category) |}.

End Listing.

Module DemoListing.

Import Listing.

Definition ide : category_dict :=
  {| cd_category_name := "ide"; cd_category_description := "Generic IDEs";
     cd_is_installed := PARTIALLY_INSTALLED;
     cd_frameworks :=
       [ {| fd_framework_name := "pycharm"; fd_framework_description := "PyCharm";
            fd_install_path := "/opt/pycharm"; fd_is_installed := true;
            fd_is_installable := true |};
         {| fd_framework_name := "eclipse"; fd_framework_description := "Eclipse";
            fd_install_path := "/opt/eclipse"; fd_is_installed := false;
            fd_is_installable := false |} ] |}.

Definition go : category_dict :=
  {| cd_category_name := "go"; cd_category_description := "Go language";
     cd_is_installed := NOT_INSTALLED;
     cd_frameworks :=
       [ {| fd_framework_name := "go-lang"; fd_framework_description := "Google compiler";
            fd_install_path := "/opt/go"; fd_is_installed := false;
            fd_is_installable := true |} ] |}.

Definition main_empty : category_dict :=
  {| cd_category_name := "main"; cd_category_description := "Main";
     cd_is_installed := NOT_INSTALLED; cd_frameworks := [] |}.

Definition flags (l i a : bool) : list_flags :=
  {| args_list := l; args_list_installed := i; args_list_available := a |}.

End DemoListing.

(** ** The parsed arguments *)

Module Parsed.

(** The namespace [parser.parse_args] returns, with the attributes [main]
    and [get_frameworks_list_output] read; [framework] is the rest of what
    [run_command_for_args] hands on to [run_for], the framework the
    arguments name. *)
Record namespace := {
  listing : Listing.list_flags;
  version : bool;
  update : bool;
  category : option string;
  framework : string
}.

End Parsed.

(** ** The [--update] branch of [main] *)

Module Update.

(** A computation that leaves a trace of events and ends with a value or
    an exception. *)
Record run (A : Type) := Run { trace : list event; ended : result A }.
Arguments Run {A} trace ended.
Arguments trace {A} r.
Arguments ended {A} r.

#[global] Instance run_ret : MRet run := fun A a => Run [] (Ok a).

#[global] Instance run_bind : MBind run := fun A B k r =>
  match ended r with
  | Ok a => Run (trace r ++ trace (k a)) (ended (k a))
  | Raise e => Run (trace r) (Raise e)
  end.

Definition emit (ev : event) : run unit := Run [ev] (Ok tt).
Definition raise {A} (e : exn) : run A := Run [] (Raise e).
Definition lift {A} (r : result A) : run A := Run [] r.

(** The dictionaries [list_frameworks()] returns, with the keys read here. *)
Record framework_info := {
  fi_framework_name : string;
  fi_install_path : string;
  fi_is_installed : bool
}.

Record category_info := {
  ci_category_name : string;
  ci_frameworks : list framework_info
}.

(** An element of [installed_frameworks]. *)
Record installed := {
  framework_name : string;
  install_path : string;
  category_name : string
}.

(** An element of [outdated_frameworks]. *)
Record outdated := {
  o_framework_name : string;
  o_category_name : string;
  user_version : option string;
  latest_version : option string;
  is_outdated : bool
}.

(** [sorted(..., key=lambda x: x['framework_name'])]: a stable sort by
    code point order. *)
Fixpoint insert_by_name (x : installed) (l : list installed) : list installed :=
  match l with
  | [] => [x]
  | y :: rest =>
      if String.leb (framework_name x) (framework_name y) then x :: l
      else y :: insert_by_name x rest
  end.

Definition sorted_by_name (l : list installed) : list installed :=
  foldr insert_by_name [] l.

Definition installed_frameworks (frameworks : list category_info) : list installed :=
  sorted_by_name
    (category ← frameworks;
     framework ← List.filter fi_is_installed (ci_frameworks category);
     [ {| framework_name := fi_framework_name framework;
          install_path := fi_install_path framework;
          category_name := ci_category_name category |} ]).

(** [is_first_version_higher(latest, user) if (latest is not None and user
    is not None) else False] *)
Definition outdated_check (latest_version user_version : option string) : result bool :=
  if bool_decide (latest_version ≠ None) && bool_decide (user_version ≠ None)
  then Version.is_first_version_higher latest_version user_version
  else Ok false.

(** The body of [for installed_framework in installed_frameworks]; it
    returns the list [outdated_frameworks] as the iteration leaves it. The
    download of the latest version page and the wait for it are the event
    [FetchLatest]. The class of [BaseCategory.categories] and of
    [.frameworks] is outside the sources: for a name they do not hold, the
    line that reads [.frameworks] and [.supports_update] raises, with
    [KeyError] if they are plain dictionaries, which is what is written
    here; which exception it is is not relied on. *)
Definition check_one (reg : registry) (outdated_frameworks : list outdated)
    (installed_framework : installed) : run (list outdated) :=
  let category_name := category_name installed_framework in
  let framework_name := framework_name installed_framework in
  if (category_name =? "java") || (framework_name =? "firefox-dev") then
    mret outdated_frameworks
  else
    let install_path := install_path installed_framework in
    match reg !! category_name with
    | None => raise (KeyError category_name)
    | Some cat =>
        match frameworks cat !! framework_name with
        | None => raise (KeyError framework_name)
        | Some framework =>
            if supports_update framework then
              emit (FetchLatest category_name framework_name);;
              let user_version := get_current_user_version framework install_path in
              let latest_version := get_latest_version framework in
              is_outdated ← lift (outdated_check latest_version user_version);
              if is_outdated : bool then
                mret (outdated_frameworks ++
                  [ {| o_framework_name := framework_name;
                       o_category_name := category_name;
                       user_version := user_version;
                       latest_version := latest_version;
                       is_outdated := is_outdated |} ])
              else mret outdated_frameworks
            else mret outdated_frameworks
        end
    end.

Fixpoint check_all (reg : registry) (outdated_frameworks : list outdated)
    (installed_frameworks : list installed) : run (list outdated) :=
  match installed_frameworks with
  | [] => mret outdated_frameworks
  | installed_framework :: rest =>
      outdated_frameworks ← check_one reg outdated_frameworks installed_framework;
      check_all reg outdated_frameworks rest
  end.

(** [pretty_print_versions] *)

Definition len_version (version : option string) : result nat :=
  match version with
  | Some v => Ok (String.length v)
  | None => Raise (TypeError "object of type 'NoneType' has no len()")
  end.

(** [max] of a generator's values. *)
Definition max_of (values : list nat) : result nat :=
  match values with
  | [] => Raise (ValueError "max() arg is an empty sequence")
  | v :: rest => Ok (foldl Nat.max v rest)
  end.

(** [s.ljust(width)] *)
Definition ljust (s : string) (width : nat) : string :=
  s +:+ String.concat "" (replicate (width - String.length s) " ").

(** Truth value of [os.getenv('TERM') and os.getenv('TERM') != 'dumb']. *)
Definition supports_color (term : option string) : bool :=
  match term with
  | Some t => negb (t =? "") && negb (t =? "dumb")
  | None => false
  end.

Definition esc (code : string) : string := String (ascii_of_nat 27) code.

(** The value an f-string prints for a version. *)
Definition shown (version : option string) : string := default "None" version.

Definition report_line (term : option string)
    (max_name_length max_version_length : nat) (item : outdated) : result string :=
  let reset_color := if supports_color term then esc "[m" else "" in
  let latest_version_color := if supports_color term then esc "[32m" else "" in
  let user_version_color := if supports_color term then esc "[31m" else "" in
  let symbol := "+" in
  let latest_version_formatted :=
    latest_version_color +:+ shown (latest_version item) +:+ reset_color in
  let latest_version_padding := String.length latest_version_formatted in
  latest_length ← len_version (latest_version item);
  let latest_version_formatted :=
    ljust latest_version_formatted
      (latest_version_padding - latest_length + max_version_length) in
  Ok (ljust (o_framework_name item) max_name_length +:+ " | " +:+
      "Latest Version: " +:+ latest_version_formatted +:+ " | " +:+
      "User Version: " +:+ user_version_color +:+ shown (user_version item) +:+
      " " +:+ symbol +:+ reset_color).

Fixpoint print_lines (term : option string)
    (max_name_length max_version_length : nat) (data : list outdated) : run unit :=
  match data with
  | [] => mret tt
  | item :: rest =>
      line ← lift (report_line term max_name_length max_version_length item);
      emit (Print line);;
      print_lines term max_name_length max_version_length rest
  end.

Definition pretty_print_versions (term : option string) (data : list outdated) : run unit :=
  max_name_length ←
    lift (max_of (map (fun item => String.length (o_framework_name item)) data));
  max_version_length ←
    lift (lengths ← mapM_result (fun item => len_version (latest_version item)) data;
          max_of lengths);
  print_lines term max_name_length max_version_length data.

(** A loop body either lets the loop go on or returns from [main]. *)
Inductive flow := Continue | Return.

Fixpoint for_each {A} (body : A -> run flow) (items : list A) : run flow :=
  match items with
  | [] => mret Continue
  | item :: rest =>
      f ← body item;
      match f with
      | Continue => for_each body rest
      | Return => mret Return
      end
  end.

(** [run_command_for_args(args)]: the decorator hands the body to the main
    loop, which runs it; the body looks its target up in [BaseCategory]
    under [args.category] and calls [target.run_for(args)]. The main loop,
    the lookup and [run_for] are outside the sources: the call is the event
    [RunCommandForArgs], with the category and the framework the namespace
    names. *)
Definition run_command_for_args (args : Parsed.namespace) : run unit :=
  emit (RunCommandForArgs (default "" (Parsed.category args)) (Parsed.framework args)).

(** The body of [for outdated_framework in outdated_frameworks]:
    [parser.parse_args], which may raise, [CliUI()],
    [run_command_for_args] on the namespace the parser gave, [return]. *)
Definition reinvoke (parse_args : list string -> result Parsed.namespace)
    (outdated_framework : outdated) : run flow :=
  let argv := [o_category_name outdated_framework;
               o_framework_name outdated_framework] in
  emit (ParseArgs argv);;
  args ← lift (parse_args argv);
  emit NewCliUI;;
  run_command_for_args args;;
  mret Return.

(** [main] from [if args.update:] on; [parse_args] is [parser.parse_args],
    [frameworks] is what [list_frameworks()] returns and [term] the value
    of [TERM]. *)
Definition update (reg : registry)
    (parse_args : list string -> result Parsed.namespace)
    (frameworks : list category_info) (term : option string) : run unit :=
  outdated_frameworks ← check_all reg [] (installed_frameworks frameworks);
  if (length outdated_frameworks =? 0)%nat then
    emit (Print "All packages are up-to-date.");;
    raise (SystemExit 0)
  else
    pretty_print_versions term outdated_frameworks;;
    f ← for_each (reinvoke parse_args) outdated_frameworks;
    match f with
    | Return => mret tt
    | Continue => raise (SystemExit 0)
    end.

(** The argument vectors handed to [parser.parse_args] in a run. *)
Definition parse_calls (evs : list event) : list (list string) :=
  omap (fun ev =>
          match ev with
          | ParseArgs argv => Some argv
          | _ => None
          end) evs.

(** The install commands a run re-invoked. *)
Definition commands_run (evs : list event) : list (string * string) :=
  omap (fun ev =>
          match ev with
          | RunCommandForArgs c f => Some (c, f)
          | _ => None
          end) evs.

(** An element of [outdated_frameworks] made for the installed framework
    [i]: both versions were read, and the latest is higher. *)
Definition classified (reg : registry) (i : installed) (e : outdated) : Prop :=
  exists cat fw u l,
    reg !! category_name i = Some cat /\
    frameworks cat !! framework_name i = Some fw /\
    o_framework_name e = framework_name i /\
    o_category_name e = category_name i /\
    get_current_user_version fw (install_path i) = Some u /\
    get_latest_version fw = Some l /\
    user_version e = Some u /\ latest_version e = Some l /\
    Version.is_first_version_higher (Some l) (Some u) = Ok true.

End Update.

Module DemoUpdate.

Definition listed : list Update.category_info :=
  [ {| Update.ci_category_name := "cat";
       Update.ci_frameworks :=
         [ {| Update.fi_framework_name := "fw"; Update.fi_install_path := "/opt/fw";
              Update.fi_is_installed := true |};
           {| Update.fi_framework_name := "dflt"; Update.fi_install_path := "/opt/dflt";
              Update.fi_is_installed := true |} ] |};
    {| Update.ci_category_name := "bare";
       Update.ci_frameworks :=
         [ {| Update.fi_framework_name := "only"; Update.fi_install_path := "/opt/only";
              Update.fi_is_installed := true |} ] |} ].

Definition fw_entry : Update.outdated :=
  {| Update.o_framework_name := "fw"; Update.o_category_name := "cat";
     Update.user_version := Some "1.9"; Update.latest_version := Some "1.10";
     Update.is_outdated := true |}.

Definition only_entry : Update.outdated :=
  {| Update.o_framework_name := "only"; Update.o_category_name := "bare";
     Update.user_version := Some "1.0"; Update.latest_version := Some "2.0";
     Update.is_outdated := true |}.

(** A parser that takes a category and a framework and nothing else. *)
Definition parse_args (argv : list string) : result Parsed.namespace :=
  match argv with
  | [c; f] =>
      Ok {| Parsed.listing :=
              {| Listing.args_list := false; Listing.args_list_installed := false;
                 Listing.args_list_available := false |};
            Parsed.version := false; Parsed.update := false;
            Parsed.category := Some c; Parsed.framework := f |}
  | _ => Raise (SystemExit 2)
  end.

(** A parser that refuses everything. *)
Definition refuse (argv : list string) : result Parsed.namespace :=
  Raise (SystemExit 2).

Definition fetches : list event :=
  [FetchLatest "cat" "dflt"; FetchLatest "cat" "fw"; FetchLatest "bare" "only"].

End DemoUpdate.

(** ** The resolver's output, computed token class by token class *)

Module Shape.

Import Mangle.

(** The options a vector starts with, and what follows them. *)
Fixpoint leading_options (args : list string) : list string * list string :=
  match args with
  | [] => ([], [])
  | arg :: rest =>
      if startswith_dash arg then
        let '(opts, tail) := leading_options rest in (arg :: opts, tail)
      else ([], args)
  end.

(** What the scan puts behind the category token [c] for the tokens [post]
    that follow it. *)
Definition body_of (reg : registry) (c : string) (post : list string) : list string :=
  match leading_options post with
  | (_, []) => from_option (fun d => [d]) [] (default_of reg c) ++ post
  | (opts, t :: rest) =>
      if is_framework reg c t then t :: opts ++ rest
      else match default_of reg c with
           | Some d => if contains_sep t then d :: post else post
           | None => post
           end
  end.

(** What the registry is expected to keep: no category has the empty name,
    and the default framework of a category is one of its frameworks, under
    a name that is no option. *)
Definition registry_ok (reg : registry) : Prop :=
  reg !! "" = None /\
  forall c d, default_of reg c = Some d ->
              startswith_dash d = false /\ is_framework reg c d = true.

End Shape.

(** ** Reading the renderer's outcome *)

Module Prompt.

(** The callback of a request that asks for an answer. *)
Definition callback_of (c : Display.content) : option (string -> result unit) :=
  match c with
  | Display.InputText _ _ run_callback => Some run_callback
  | Display.LicenseAgreement _ _ choose => Some choose
  | Display.TextWithChoices _ choose => Some choose
  | _ => None
  end.

(** What a request that asks for an answer prints before each read: the
    licence text ([print(contentType.content)]); the other two kinds show
    their text in the prompt of the read. *)
Definition shown_of (c : Display.content) : list event :=
  match c with
  | Display.LicenseAgreement content _ _ => [Print content]
  | _ => []
  end.

(** The read of [answer] by a request that asks for one: [rlinput] with
    the content and the default, or [input] with the prompt. The other
    kinds read nothing; the value given for them is never used. *)
Definition read_of (c : Display.content) (answer : string) : event :=
  match c with
  | Display.InputText content default_input _ => Rlinput content default_input answer
  | Display.LicenseAgreement _ input _ => Input input answer
  | Display.TextWithChoices prompt _ => Input prompt answer
  | _ => Input "" answer
  end.

(** One turn of the loop that ends in a refusal: the request is shown,
    [answer] is read, the message of the [InputError] is logged. *)
Definition refusal (c : Display.content) (answer msg : string) : list event :=
  shown_of c ++ [read_of c answer; LogError msg].

(** The turn of the loop whose answer the callback takes. *)
Definition acceptance (c : Display.content) (answer : string) : list event :=
  shown_of c ++ [read_of c answer].

(** The messages handed to [logger.error], in order. *)
Definition errors_logged (evs : list event) : list string :=
  omap (fun ev => match ev with LogError msg => Some msg | _ => None end) evs.

(** The answers read from the terminal, in order. *)
Definition answers_read (evs : list event) : list string :=
  omap (fun ev =>
          match ev with
          | Input _ answer | Rlinput _ _ answer => Some answer
          | _ => None
          end) evs.

(** The callback refuses the answers [answers] with [InputError], giving
    the messages [msgs]. *)
Definition refused (callback : string -> result unit)
    (answers msgs : list string) : Prop :=
  Forall2 (fun answer msg => callback answer = Raise (InputError msg)) answers msgs.

End Prompt.

(** ** Reading the update branch *)

Module UpdateFacts.

Import Update.

(** The installed framework [i] is one the update branch looks at: it is
    not in the category [java], it is not [firefox-dev], the registry holds
    it as [fw], and [fw] supports updates. *)
Definition eligible (reg : registry) (i : installed) (fw : framework) : Prop :=
  category_name i <> "java" /\ framework_name i <> "firefox-dev" /\
  exists cat, reg !! category_name i = Some cat /\
              frameworks cat !! framework_name i = Some fw /\
              supports_update fw = true.

(** The element of [outdated_frameworks] made for [i], held as [fw]. *)
Definition entry_of (i : installed) (fw : framework) : outdated :=
  {| o_framework_name := framework_name i;
     o_category_name := category_name i;
     user_version := get_current_user_version fw (install_path i);
     latest_version := get_latest_version fw;
     is_outdated := true |}.

(** The download requests of a run. *)
Definition fetched (evs : list event) : list (string * string) :=
  omap (fun ev =>
          match ev with
          | FetchLatest c f => Some (c, f)
          | _ => None
          end) evs.

End UpdateFacts.

(** ** main *)

Module Main.

Abbreviation namespace := Parsed.namespace.

(** The dictionaries of [list_frameworks()] as the update branch reads
    them. *)
Definition update_view (category : Listing.category_dict) : Update.category_info :=
  {| Update.ci_category_name := Listing.cd_category_name category;
     Update.ci_frameworks :=
       map (fun f => {| Update.fi_framework_name := Listing.fd_framework_name f;
                        Update.fi_install_path := Listing.fd_install_path f;
                        Update.fi_is_installed := Listing.fd_is_installed f |})
         (Listing.cd_frameworks category) |}.

Section Collaborators.

(** [parser.parse_args], [_], the text of [get_version()], the text
    [parser.print_help()] prints, what [list_frameworks()] returns and the
    value of [TERM]. *)
Variables (reg : registry)
          (parse_args : list string -> result namespace)
          (gettext : string -> string)
          (version_text help_text : string)
          (list_frameworks : list Listing.category_dict)
          (term : option string).

(** [main] from [arg_to_parse = sys.argv[1:]] on; [argv] is [sys.argv[1:]]. *)
Definition main (argv : list string) : Update.run unit :=
  let to_parse := arg_to_parse reg argv in
  Update.emit (ParseArgs to_parse);;
  args ← Update.lift (parse_args to_parse);
  if Listing.args_list (Parsed.listing args) || Listing.args_list_installed (Parsed.listing args)
     || Listing.args_list_available (Parsed.listing args) then
    Update.emit
      (Print (Listing.get_frameworks_list_output gettext (Parsed.listing args) list_frameworks));;
    Update.raise (SystemExit 0)
  else if Parsed.version args then
    Update.emit (Print version_text);;
    Update.raise (SystemExit 0)
  else if Parsed.update args then
    Update.update reg parse_args (map update_view list_frameworks) term
  else if negb (truthy (Parsed.category args)) then
    Update.emit (Print help_text);;
    Update.raise (SystemExit 0)
  else
    Update.emit NewCliUI;;
    Update.run_command_for_args args;;
    mret tt.

End Collaborators.

End Main.

(** A registry with a framework whose latest version does not parse. *)
Module DemoBroken.

Definition alpha := Demo.fw_of "alpha" (Some "1.0") (Some "2.0").
Definition beta := Demo.fw_of "beta" (Some "1.0") (Some "2.x").
Definition gamma := Demo.fw_of "gamma" (Some "1.0") (Some "3.0").

Definition cat : category :=
  {| frameworks := <["alpha" := alpha]> (<["beta" := beta]> (<["gamma" := gamma]> ∅));
     default_framework := None |}.

Definition reg : registry := <["cat" := cat]> ∅.

Definition installed_of (name : string) : Update.installed :=
  {| Update.framework_name := name; Update.install_path := "/opt/" +:+ name;
     Update.category_name := "cat" |}.

Definition listed : list Update.category_info :=
  [ {| Update.ci_category_name := "cat";
       Update.ci_frameworks :=
         [ {| Update.fi_framework_name := "gamma"; Update.fi_install_path := "/opt/gamma";
              Update.fi_is_installed := true |};
           {| Update.fi_framework_name := "beta"; Update.fi_install_path := "/opt/beta";
              Update.fi_is_installed := true |};
           {| Update.fi_framework_name := "alpha"; Update.fi_install_path := "/opt/alpha";
              Update.fi_is_installed := true |} ] |} ].

End DemoBroken.

(** What is installed when nothing can be found outdated: the default
    framework of [Demo.reg], whose installed version cannot be read. *)
Module DemoQuiet.

Definition listed : list Update.category_info :=
  [ {| Update.ci_category_name := "cat";
       Update.ci_frameworks :=
         [ {| Update.fi_framework_name := "dflt"; Update.fi_install_path := "/opt/dflt";
              Update.fi_is_installed := true |};
           {| Update.fi_framework_name := "fw"; Update.fi_install_path := "/opt/fw";
              Update.fi_is_installed := false |} ] |} ].

End DemoQuiet.

Module DemoDisplay.

(** A choice that takes [y] and refuses everything else. *)
Definition choose (answer : string) : result unit :=
  if answer =? "y" then Ok tt else Raise (InputError "Invalid answer").

End DemoDisplay.

(** * Examples

    The resolver, the comparator and the update branch on small inputs. *)

Example mangle_cat :
  Mangle.mangle_args_for_default_framework Demo.reg ["cat"] = ["cat"; "dflt"].
Proof. vm_compute. reflexivity. Qed.

Example mangle_cat_fw :
  Mangle.mangle_args_for_default_framework Demo.reg ["cat"; "fw"] = ["cat"; "fw"].
Proof. vm_compute. reflexivity. Qed.

Example mangle_cat_path :
  Mangle.mangle_args_for_default_framework Demo.reg ["cat"; "/some/path"]
  = ["cat"; "dflt"; "/some/path"].
Proof. vm_compute. reflexivity. Qed.

Example mangle_unknown :
  Mangle.mangle_args_for_default_framework Demo.reg ["unknowntoken"; "x"]
  = ["unknowntoken"; "x"].
Proof. vm_compute. reflexivity. Qed.

Example mangle_cat_opt_fw :
  Mangle.mangle_args_for_default_framework Demo.reg ["cat"; "-r"; "fw"]
  = ["cat"; "fw"; "-r"].
Proof. vm_compute. reflexivity. Qed.

Example mangle_leading_remove :
  Mangle.mangle_args_for_default_framework Demo.reg ["-v"; "-r"; "cat"; "-r"; "/p"]
  = ["-v"; "cat"; "dflt"; "-r"; "/p"; "-r"].
Proof. vm_compute. reflexivity. Qed.

Example mangle_typo :
  Mangle.mangle_args_for_default_framework Demo.reg ["cat"; "fww"; "/p"]
  = ["cat"; "fww"; "/p"].
Proof. vm_compute. reflexivity. Qed.

Example display_retry :
  Display._display (Display.TextWithChoices "Choice?" DemoDisplay.choose) ["x"; "y"; "z"]
  = {| Display.events :=
         [Input "Choice?" "x"; LogError "Invalid answer"; Input "Choice?" "y"];
       Display.stdin_left := ["z"];
       Display.value := Ok Display.ReturnNone |}.
Proof. reflexivity. Qed.

Example listing_all :
  Listing.get_frameworks_list_output id (DemoListing.flags true false false)
    [DemoListing.ide; DemoListing.main_empty; DemoListing.go]
  = "go: Go language [not installed]" +:+ Listing.newline +:+
    Listing.tab +:+ "go-lang: Google compiler" +:+ Listing.newline +:+
    "ide: Generic IDEs [partially installed]" +:+ Listing.newline +:+
    Listing.tab +:+ "eclipse: Eclipse [not installable on this machine]"
      +:+ Listing.newline +:+
    Listing.tab +:+ "pycharm: PyCharm [installed]" +:+ Listing.newline.
Proof. vm_compute. reflexivity. Qed.

Example listing_installed :
  Listing.get_frameworks_list_output id (DemoListing.flags false true false)
    [DemoListing.ide; DemoListing.main_empty; DemoListing.go]
  = "pycharm: PyCharm" +:+ Listing.newline +:+
    Listing.tab +:+ "path: /opt/pycharm" +:+ Listing.newline.
Proof. vm_compute. reflexivity. Qed.

Example listing_available :
  Listing.get_frameworks_list_output id (DemoListing.flags false false true)
    [DemoListing.ide; DemoListing.main_empty; DemoListing.go]
  = "go: Go language [not installed]" +:+ Listing.newline +:+
    Listing.tab +:+ "go-lang: Google compiler" +:+ Listing.newline +:+
    "ide: Generic IDEs [partially installed]" +:+ Listing.newline +:+
    Listing.tab +:+ "pycharm: PyCharm [installed]" +:+ Listing.newline.
Proof. vm_compute. reflexivity. Qed.

Example higher_210_21 :
  Version.is_first_version_higher (Some "2.1.0") (Some "2.1") = Ok true.
Proof. vm_compute. reflexivity. Qed.

Example higher_19_110 :
  Version.is_first_version_higher (Some "1.9") (Some "1.10") = Ok false.
Proof. vm_compute. reflexivity. Qed.

Example higher_malformed :
  Version.is_first_version_higher (Some "1.x") (Some "1.10")
  = Raise (ValueError "invalid literal for int() with base 10: 'x'").
Proof. vm_compute. reflexivity. Qed.

Example int_examples :
  Version.int " +1_000 " = Ok 1000%Z /\ Version.int "-07" = Ok (-7)%Z
  /\ Version.int "" = Raise (ValueError "invalid literal for int() with base 10: ''")
  /\ Version.int "1__0" = Raise (ValueError "invalid literal for int() with base 10: '1__0'").
Proof. vm_compute. repeat split; reflexivity. Qed.

Example demo_check_all :
  Update.check_all Demo.reg [] (Update.installed_frameworks DemoUpdate.listed)
  = Update.Run DemoUpdate.fetches
      (Ok [DemoUpdate.fw_entry; DemoUpdate.only_entry]).
Proof. vm_compute. reflexivity. Qed.

Example demo_update :
  Update.update Demo.reg DemoUpdate.parse_args DemoUpdate.listed None
  = Update.Run
      (DemoUpdate.fetches ++
       [ Print "fw   | Latest Version: 1.10 | User Version: 1.9 +";
         Print "only | Latest Version: 2.0  | User Version: 1.0 +";
         ParseArgs ["cat"; "fw"]; NewCliUI; RunCommandForArgs "cat" "fw" ])
      (Ok tt).
Proof. vm_compute. reflexivity. Qed.

Example demo_update_refused :
  Update.update Demo.reg DemoUpdate.refuse DemoUpdate.listed None
  = Update.Run
      (DemoUpdate.fetches ++
       [ Print "fw   | Latest Version: 1.10 | User Version: 1.9 +";
         Print "only | Latest Version: 2.0  | User Version: 1.0 +";
         ParseArgs ["cat"; "fw"] ])
      (Raise (SystemExit 2)).
Proof. vm_compute. reflexivity. Qed.

(** * The resolver: how the scan moves through an argument vector *)

Section Resolver.

Import Mangle.

Variable reg : registry.

Lemma is_remove_dash arg : is_remove arg = true -> startswith_dash arg = true.
Proof.
  unfold is_remove. intros H. apply orb_true_iff in H as [H|H];
    apply String.eqb_eq in H; subst; reflexivity.
Qed.

Lemma category_token_not_remove c : category_token reg c -> is_remove c = false.
Proof.
  intros (Hd & _ & _). destruct (is_remove c) eqn:E; [|done].
  apply is_remove_dash in E. congruence.
Qed.

Lemma category_token_truthy c : category_token reg c -> truthy (Some c) = true.
Proof.
  intros (_ & Hne & _). simpl. apply negb_true_iff, String.eqb_neq, Hne.
Qed.

Lemma category_token_is_category c : category_token reg c -> is_category reg c = true.
Proof. intros (_ & _ & Hk). unfold is_category. by apply bool_decide_eq_true. Qed.

(** Options met while no category is set: the remove flags are deferred,
    the others wait in [pending_args]. *)
Lemma scan_leading_options pre : forall R sk P fc A,
  options pre ->
  fold_left (step reg) pre (Build_scan R sk P None fc A)
  = Build_scan R sk (P ++ kept pre) None fc (A ++ deferred pre).
Proof.
  induction pre as [|a pre IH]; intros R sk P fc A Hopt; simpl.
  - by rewrite !app_nil_r.
  - inversion Hopt as [|? ? Ha Hpre]; subst.
    unfold step at 2; simpl. unfold kept, deferred; simpl.
    destruct (is_remove a) eqn:Er; simpl.
    + rewrite IH by done. unfold deferred. by rewrite <- app_assoc.
    + rewrite Ha; simpl. unfold push_pending; simpl.
      rewrite IH by done. unfold kept. by rewrite <- app_assoc.
Qed.

(** The category token flushes [pending_args] and is committed. *)
Lemma step_category c R P fc A :
  category_token reg c ->
  step reg (Build_scan R false P None fc A) c
  = Build_scan ((R ++ P) ++ [c]) false [] (Some c) fc A.
Proof.
  intros Hc. unfold step; simpl.
  rewrite (category_token_not_remove c Hc), (category_token_is_category c Hc).
  destruct Hc as (-> & _ & _). reflexivity.
Qed.

(** Once a category is set, a token that is an option, or that comes after
    the first positional token, or after [skip_all], is only appended to
    [pending_args]. *)
Lemma scan_passes c l : forall R sk P fc A,
  truthy (Some c) = true ->
  sk = true \/ fc = true \/ options l ->
  fold_left (step reg) l (Build_scan R sk P (Some c) fc A)
  = Build_scan R sk (P ++ l) (Some c) fc A.
Proof.
  induction l as [|a l IH]; intros R sk P fc A Ht Hcase; simpl.
  - by rewrite app_nil_r.
  - assert (step reg (Build_scan R sk P (Some c) fc A) a
            = Build_scan R sk (P ++ [a]) (Some c) fc A) as ->.
    { unfold step. cbn [category_name skip_all framework_completed].
      rewrite Ht. cbn [negb andb].
      destruct Hcase as [->|[->|Hopt]].
      - rewrite andb_false_r. reflexivity.
      - destruct (negb (startswith_dash a) && negb sk); reflexivity.
      - inversion Hopt; subst. by replace (startswith_dash a) with true. }
    rewrite IH; [by rewrite <- app_assoc | done |].
    destruct Hcase as [?|[?|Hopt]]; [by left | by right; left |].
    right; right. by inversion Hopt.
Qed.

(** After an unknown first positional token everything passes through,
    except that remove flags are still deferred. *)
Lemma scan_skipped l : forall R P fc A,
  fold_left (step reg) l (Build_scan R true P None fc A)
  = Build_scan R true (P ++ kept l) None fc (A ++ deferred l).
Proof.
  induction l as [|a l IH]; intros R P fc A; simpl.
  - by rewrite !app_nil_r.
  - unfold step at 2; simpl. unfold kept, deferred; simpl.
    destruct (is_remove a) eqn:Er; simpl.
    + rewrite IH. unfold deferred. by rewrite <- app_assoc.
    + rewrite andb_false_r. unfold push_pending; simpl.
      rewrite IH. unfold kept. by rewrite <- app_assoc.
Qed.

(** Any vector is all options, or splits at its first positional token. *)
Lemma first_positional (l : list string) :
  options l \/
  exists opts t rest, l = opts ++ t :: rest /\ options opts /\ startswith_dash t = false.
Proof.
  induction l as [|a l [IH|(opts & t & rest & -> & Ho & Ht)]].
  - left. constructor.
  - destruct (startswith_dash a) eqn:Ea.
    + left. by constructor.
    + right. exists [], a, l. repeat split; [constructor | done].
  - destruct (startswith_dash a) eqn:Ea.
    + right. exists (a :: opts), t, rest. repeat split; [by constructor | done].
    + right. exists [], a, (opts ++ t :: rest). repeat split; [constructor | done].
Qed.

(** The scan up to and including the category token. *)
Lemma scan_to_category pre c :
  options pre -> category_token reg c ->
  fold_left (step reg) (pre ++ [c]) init
  = Build_scan (kept pre ++ [c]) false [] (Some c) false (deferred pre).
Proof.
  intros Hpre Hc. rewrite fold_left_app. unfold init.
  rewrite scan_leading_options by done. simpl.
  by rewrite step_category.
Qed.

(** The first positional token after the category. *)
Lemma step_first_positional c t R P A :
  truthy (Some c) = true -> startswith_dash t = false ->
  step reg (Build_scan R false P (Some c) false A) t
  = if is_framework reg c t then Build_scan (R ++ [t]) false P (Some c) true A
    else match default_of reg c with
         | Some d =>
             Build_scan (if contains_sep t then R ++ [d] else R) false
               (P ++ [t]) (Some c) true A
         | None => Build_scan R true (P ++ [t]) (Some c) true A
         end.
Proof.
  intros Ht Hd. unfold step. cbn [category_name skip_all framework_completed].
  rewrite Ht, Hd. cbn [negb andb default from_option]. unfold id.
  destruct (is_framework reg c t); [reflexivity|].
  destruct (default_of reg c); [|reflexivity].
  destruct (contains_sep t); reflexivity.
Qed.

Lemma mangle_category_shape pre c post :
  options pre -> category_token reg c ->
  exists body,
    mangle_args_for_default_framework reg (pre ++ c :: post)
    = kept pre ++ c :: body ++ deferred pre
    /\ body_after reg c post body.
Proof.
  intros Hpre Hc. pose proof (category_token_truthy c Hc) as Ht.
  unfold mangle_args_for_default_framework.
  replace (pre ++ c :: post) with ((pre ++ [c]) ++ post)
    by (by rewrite <- app_assoc).
  rewrite fold_left_app, scan_to_category by done.
  destruct (first_positional post) as [Hopt|(opts & t & rest & -> & Ho & Hd)].
  - rewrite scan_passes by auto. eexists; split; [|left; split; [done|reflexivity]].
    unfold finish. cbn [category_name framework_completed result_args
                        pending_args args_to_append default from_option].
    unfold id. rewrite Ht. cbn [negb andb].
    destruct (default_of reg c); simpl; by rewrite <- ?app_assoc.
  - rewrite fold_left_app, scan_passes by auto. simpl fold_left at 1.
    cbn [fold_left]. rewrite step_first_positional by done.
    eexists; split;
      [|right; exists opts, t, rest;
        split; [reflexivity|split; [exact Ho|split; [exact Hd|reflexivity]]]].
    destruct (is_framework reg c t).
    { rewrite scan_passes by auto. unfold finish; simpl.
      rewrite andb_false_r. by rewrite <- !app_assoc. }
    destruct (default_of reg c) as [d|].
    + rewrite scan_passes by auto. unfold finish.
      cbn [category_name framework_completed result_args
           pending_args args_to_append].
      rewrite andb_false_r.
      destruct (contains_sep t); simpl; by rewrite <- !app_assoc.
    + rewrite scan_passes by auto. unfold finish; simpl.
      rewrite andb_false_r. by rewrite <- !app_assoc.
Qed.

(** When the first positional token is not a category, or there is none,
    no category is ever set. *)
Lemma mangle_no_category args :
  (forall t, List.find (fun a => negb (startswith_dash a)) args = Some t ->
             is_category reg t = false) ->
  mangle_args_for_default_framework reg args = kept args ++ deferred args.
Proof.
  intros Hfirst. unfold mangle_args_for_default_framework.
  destruct (first_positional args) as [Hopt|(opts & t & rest & -> & Ho & Hd)].
  - unfold init. rewrite scan_leading_options by done. reflexivity.
  - assert (is_category reg t = false) as Hcat.
    { apply Hfirst. clear Hfirst. induction Ho as [|a opts Ha Ho IH]; simpl.
      - by rewrite Hd.
      - by rewrite Ha. }
    assert (is_remove t = false) as Hr.
    { destruct (is_remove t) eqn:E; [|done]. apply is_remove_dash in E. congruence. }
    rewrite fold_left_app. unfold init. rewrite scan_leading_options by done.
    simpl. unfold step at 2; simpl. rewrite Hr, Hd, Hcat; simpl.
    unfold push_pending, set_skip_all; simpl.
    rewrite scan_skipped. unfold finish; simpl.
    unfold kept, deferred. rewrite !List.filter_app; simpl. rewrite Hr; simpl.
    by rewrite <- !app_assoc.
Qed.

(** *** Nothing is dropped, the default is added at most once *)

Lemma scanned_init : scanned reg init [].
Proof. split; [by left | intros c Hc; discriminate Hc]. Qed.

Lemma scanned_step st read arg :
  scanned reg st read -> scanned reg (step reg st arg) (read ++ [arg]).
Proof.
  destruct st as [R sk P cn fc A]. unfold scanned, contents; simpl.
  intros [Hperm Hcat].
  unfold step; cbn [category_name skip_all framework_completed
                    result_args pending_args args_to_append].
  destruct (truthy cn) eqn:Ht; cbn [negb andb].
  - (* a category is set: its name no longer changes *)
    assert (exists c, cn = Some c) as [c ->] by (destruct cn; [eauto|done]).
    destruct (Hcat c eq_refl) as [Hin Hkey].
    assert (forall c', Some c = Some c' -> c' ∈ read ++ [arg] /\ is_Some (reg !! c'))
      as Hcat'.
    { intros c' [= <-]. split; [apply elem_of_app; by left | done]. }
    destruct (negb (startswith_dash arg) && negb sk) eqn:Hpos;
      [destruct fc; cbn [negb]|].
    + (* after the first positional token *)
      simpl. split; [|done].
      destruct Hperm as [Hp|(_ & c0 & d & Hc0 & Ht0 & Hd & Hp)].
      * left. rewrite <- Hp. solve_Permutation.
      * right. split; [done|]. exists c0, d. repeat split; try done.
        change (d :: read ++ [arg]) with ((d :: read) ++ [arg]).
        rewrite <- Hp. solve_Permutation.
    + (* the first positional token *)
      destruct Hperm as [Hp|(Hfc & _)]; [|discriminate Hfc].
      cbn [default from_option]. unfold id.
      destruct (is_framework reg c arg).
      { simpl. split; [|done]. left. rewrite <- Hp. solve_Permutation. }
      destruct (default_of reg c) as [d|] eqn:Hd.
      * destruct (contains_sep arg); simpl; (split; [|done]).
        -- right. split; [done|]. exists c, d. repeat split; try done.
           rewrite <- Hp. solve_Permutation.
        -- left. rewrite <- Hp. solve_Permutation.
      * simpl. split; [|done]. left. rewrite <- Hp. solve_Permutation.
    + (* an option, or after skip_all *)
      simpl. split; [|done].
      destruct Hperm as [Hp|(Hfc & c0 & d & Hc0 & Ht0 & Hd & Hp)].
      * left. rewrite <- Hp. solve_Permutation.
      * right. split; [done|]. exists c0, d. repeat split; try done.
        change (d :: read ++ [arg]) with ((d :: read) ++ [arg]).
        rewrite <- Hp. solve_Permutation.
  - (* no category yet: the default has not been added *)
    assert (R ++ P ++ A ≡ₚ read) as Hp.
    { destruct Hperm as [Hp|(_ & c0 & d & Hc0 & Ht0 & _)]; [done|].
      rewrite Hc0 in Ht. simpl in Ht, Ht0. congruence. }
    assert (forall c, cn = Some c -> c ∈ read ++ [arg] /\ is_Some (reg !! c)) as Hcat'.
    { intros c Hc. destruct (Hcat c Hc). split; [apply elem_of_app; by left|done]. }
    destruct (is_remove arg); cbn [andb].
    { simpl. split; [|done]. left. rewrite <- Hp. solve_Permutation. }
    destruct (negb (startswith_dash arg) && negb sk); cbn [negb].
    + destruct (is_category reg arg) eqn:Hk; simpl.
      * split.
        -- left. rewrite <- Hp. solve_Permutation.
        -- intros c [= <-]. split; [apply elem_of_app; right; by left|].
           unfold is_category in Hk. by apply bool_decide_eq_true in Hk.
      * split; [|done]. left. rewrite <- Hp. solve_Permutation.
    + simpl. split; [|done]. left. rewrite <- Hp. solve_Permutation.
Qed.

Lemma scanned_fold args : forall st read,
  scanned reg st read -> scanned reg (fold_left (step reg) args st) (read ++ args).
Proof.
  induction args as [|a args IH]; intros st read Hs; simpl.
  - by rewrite app_nil_r.
  - replace (read ++ a :: args) with ((read ++ [a]) ++ args)
      by (by rewrite <- app_assoc).
    apply IH, scanned_step, Hs.
Qed.

(** The lookups [BaseCategory.categories[category_name]] of the scan never
    miss: the name in hand is a key of the registry. *)
Lemma category_name_known args c :
  category_name (fold_left (step reg) args init) = Some c -> is_Some (reg !! c).
Proof.
  intros Hc. pose proof (scanned_fold args init [] scanned_init) as [_ Hk].
  by destruct (Hk c Hc).
Qed.

(** The output is the input, or the input and the default of the category
    the scan matched, a token of the input. *)
Lemma mangle_permutation args :
  mangle_args_for_default_framework reg args ≡ₚ args \/
  exists c d,
    category_name (fold_left (step reg) args init) = Some c /\
    c ∈ args /\ is_Some (reg !! c) /\ default_of reg c = Some d /\
    mangle_args_for_default_framework reg args ≡ₚ d :: args.
Proof.
  unfold mangle_args_for_default_framework.
  pose proof (scanned_fold args init [] scanned_init) as [Hperm Hcat].
  simpl in Hperm, Hcat.
  destruct (fold_left (step reg) args init) as [R sk P cn fc A].
  unfold contents, finish in *; simpl in *.
  destruct Hperm as [Hp|(-> & c & d & -> & Ht & Hd & Hp)].
  - destruct (truthy cn && negb fc) eqn:E.
    + assert (exists c, cn = Some c) as [c ->] by (destruct cn; [eauto|done]).
      cbn [default from_option]. unfold id.
      destruct (default_of reg c) as [d|] eqn:Hd.
      * right. exists c, d. destruct (Hcat c eq_refl).
        repeat split; try done. rewrite <- Hp. solve_Permutation.
      * left. rewrite <- Hp. solve_Permutation.
    + left. rewrite <- Hp. solve_Permutation.
  - rewrite andb_false_r. right. exists c, d. destruct (Hcat c eq_refl).
    repeat split; try done. rewrite <- Hp. solve_Permutation.
Qed.

End Resolver.

(** * The resolver: properties of its output *)

Lemma demo_cat_token : Mangle.category_token Demo.reg "cat".
Proof.
  split; [reflexivity|]. split; [discriminate|].
  vm_compute. eexists. reflexivity.
Defined.

(** C2 as stated fails: with [-h] and no [--help] the vector does go
    through the resolver, which inserts the default of [cat]. *)
Lemma help_short_flag_is_rewritten :
  ~ (forall (reg : registry) (argv : list string),
       "--help" ∈ argv \/ "-h" ∈ argv -> arg_to_parse reg argv = argv).
Proof.
  intros H. specialize (H Demo.reg ["cat"; "-h"]).
  assert (arg_to_parse Demo.reg ["cat"; "-h"] = ["cat"; "dflt"; "-h"]) as E
    by (vm_compute; reflexivity).
  rewrite E in H. discriminate H. right. apply list_elem_of_In. simpl. auto.
Qed.

(** C2, amended: an argument vector that holds the token [--help] is handed
    to the parser as it is, without going through the resolver. *)
Theorem help_bypasses_rewriting (reg : registry) (argv : list string) :
  "--help" ∈ argv -> arg_to_parse reg argv = argv.
Proof.
  intros H. unfold arg_to_parse. by rewrite bool_decide_eq_true_2.
Qed.

Lemma help_bypasses_rewriting_witness :
  arg_to_parse Demo.reg ["cat"; "--help"] = ["cat"; "--help"].
Proof.
  apply (help_bypasses_rewriting Demo.reg ["cat"; "--help"]).
  apply list_elem_of_In. simpl. auto.
Defined.

(** Without [--help] the vector is the resolver's output. *)
Lemma no_help_is_rewritten (reg : registry) (argv : list string) :
  "--help" ∉ argv ->
  arg_to_parse reg argv = Mangle.mangle_args_for_default_framework reg argv.
Proof.
  intros H. unfold arg_to_parse. by rewrite bool_decide_eq_false_2.
Qed.

(** C3 as stated fails: in [cat -r fw] the remove flag stands between the
    category and the framework, and the output is [cat fw -r]: the tokens
    after the category do not all keep their relative order. *)
Lemma remove_after_category_is_overtaken :
  ~ (forall (reg : registry) (pre : list string) (c : string) (post : list string),
       Mangle.options pre -> Mangle.category_token reg c ->
       exists body,
         Mangle.mangle_args_for_default_framework reg (pre ++ c :: post)
         = Mangle.kept pre ++ c :: body ++ Mangle.deferred pre
         /\ post `sublist_of` body).
Proof.
  intros H.
  destruct (H Demo.reg [] "cat" ["-r"; "fw"]) as (body & E & Hsub).
  { constructor. }
  { exact demo_cat_token. }
  assert (Mangle.mangle_args_for_default_framework Demo.reg ([] ++ "cat" :: ["-r"; "fw"])
          = ["cat"; "fw"; "-r"]) as E' by (vm_compute; reflexivity).
  rewrite E' in E. simpl in E. rewrite app_nil_r in E.
  injection E as <-.
  repeat match goal with
         | Hs : _ `sublist_of` _ |- _ => inversion Hs; clear Hs; simplify_eq
         end.
Qed.

(** C3, amended: when a category token [c] is recognized (every token
    before it is an option), the remove flags before [c] are moved, in
    order, behind every other token of the output; a remove flag after [c]
    is not deferred but handled as any other option: the tokens after [c]
    keep their order, except that a known framework that is the first
    positional token after [c] goes ahead of the options before it, and the
    default, when one is inserted, goes right after [c]. *)
Theorem remove_flag_placement
    (reg : registry) (pre : list string) (c : string) (post : list string) :
  Mangle.options pre -> Mangle.category_token reg c ->
  exists body,
    Mangle.mangle_args_for_default_framework reg (pre ++ c :: post)
    = Mangle.kept pre ++ c :: body ++ Mangle.deferred pre
    /\ Mangle.body_after reg c post body.
Proof. apply mangle_category_shape. Qed.

Lemma remove_flag_placement_witness :
  exists body,
    Mangle.mangle_args_for_default_framework Demo.reg
      (["-v"; "-r"] ++ "cat" :: ["--remove"; "/some/path"])
    = Mangle.kept ["-v"; "-r"] ++ "cat" :: body ++ Mangle.deferred ["-v"; "-r"]
    /\ Mangle.body_after Demo.reg "cat" ["--remove"; "/some/path"] body.
Proof.
  apply (remove_flag_placement Demo.reg ["-v"; "-r"] "cat" ["--remove"; "/some/path"]).
  - repeat constructor.
  - exact demo_cat_token.
Defined.

(** The resolver on a category token followed by one more token. *)
Lemma mangle_pair (reg : registry) (c d t : string) :
  Mangle.category_token reg c -> Mangle.default_of reg c = Some d ->
  Mangle.is_framework reg c t = false ->
  Mangle.mangle_args_for_default_framework reg [c; t]
  = if startswith_dash t || contains_sep t then [c; d; t] else [c; t].
Proof.
  intros Hc Hd Hf. pose proof (category_token_truthy reg c Hc) as Ht.
  unfold Mangle.mangle_args_for_default_framework. simpl. unfold Mangle.init.
  rewrite step_category by done. simpl.
  destruct (startswith_dash t) eqn:Edash.
  - pose proof (scan_passes reg c [t] [c] false [] false [] Ht) as Hp.
    simpl in Hp. rewrite Hp by (right; right; by repeat constructor).
    unfold Mangle.finish. simpl in Ht |- *. rewrite Ht. simpl. unfold id.
    by rewrite Hd.
  - rewrite step_first_positional by done. rewrite Hf, Hd.
    unfold Mangle.finish. simpl. rewrite andb_false_r.
    by destruct (contains_sep t).
Qed.

(** C6 as stated fails: an option after the category holds no path
    separator, and the default is inserted all the same. *)
Lemma default_inserted_before_option :
  ~ (forall (reg : registry) (c d t : string),
       Mangle.category_token reg c -> Mangle.default_of reg c = Some d ->
       Mangle.is_framework reg c t = false ->
       (Mangle.mangle_args_for_default_framework reg [c; t] = [c; d; t]
        <-> contains_sep t = true)).
Proof.
  intros H.
  destruct (H Demo.reg "cat" "dflt" "--verbose") as [Hsep _].
  - exact demo_cat_token.
  - vm_compute. reflexivity.
  - vm_compute. reflexivity.
  - assert (contains_sep "--verbose" = true) as E
      by (apply Hsep; vm_compute; reflexivity).
    vm_compute in E. discriminate E.
Qed.

(** C6, amended: for [[c; t]] with [c] a category token that has a default
    and [t] no known framework of [c], the default is inserted between the
    two exactly when [t] holds a path separator or is an option (has a
    leading dash); otherwise the vector is unchanged. For a token that is
    not an option, that is: exactly when it holds a path separator. *)
Theorem default_inserted_for_path (reg : registry) (c d t : string) :
  Mangle.category_token reg c -> Mangle.default_of reg c = Some d ->
  Mangle.is_framework reg c t = false ->
  Mangle.mangle_args_for_default_framework reg [c; t]
  = (if startswith_dash t || contains_sep t then [c; d; t] else [c; t])
  /\ (startswith_dash t = false ->
      (Mangle.mangle_args_for_default_framework reg [c; t] = [c; d; t]
       <-> contains_sep t = true)).
Proof.
  intros Hc Hd Hf. rewrite (mangle_pair reg c d t Hc Hd Hf).
  split; [reflexivity|]. intros ->. simpl.
  destruct (contains_sep t); split; intros H; try done.
Qed.

Lemma default_inserted_for_path_witness :
  Mangle.mangle_args_for_default_framework Demo.reg ["cat"; "/some/path"]
  = (if startswith_dash "/some/path" || contains_sep "/some/path"
     then ["cat"; "dflt"; "/some/path"] else ["cat"; "/some/path"])
  /\ (startswith_dash "/some/path" = false ->
      (Mangle.mangle_args_for_default_framework Demo.reg ["cat"; "/some/path"]
       = ["cat"; "dflt"; "/some/path"]
       <-> contains_sep "/some/path" = true)).
Proof.
  apply (default_inserted_for_path Demo.reg "cat" "dflt" "/some/path").
  - exact demo_cat_token.
  - vm_compute. reflexivity.
  - vm_compute. reflexivity.
Defined.

(** C8: when only options follow the category token and the category has
    a default, the default is put right after the category; the options
    before the category stay before it, its remove flags go last. *)
Theorem default_after_bare_category
    (reg : registry) (pre : list string) (c : string) (opts : list string)
    (d : string) :
  Mangle.options pre -> Mangle.category_token reg c -> Mangle.options opts ->
  Mangle.default_of reg c = Some d ->
  Mangle.mangle_args_for_default_framework reg (pre ++ c :: opts)
  = Mangle.kept pre ++ c :: d :: opts ++ Mangle.deferred pre.
Proof.
  intros Hpre Hc Hopts Hd.
  destruct (mangle_category_shape reg pre c opts Hpre Hc) as (body & -> & Hbody).
  destruct Hbody as [[_ ->]|(o & t & rest & -> & _ & Ht & _)].
  - rewrite Hd. reflexivity.
  - apply Forall_app in Hopts as [_ Hopts]. inversion Hopts; congruence.
Qed.

Lemma default_after_bare_category_witness :
  Mangle.mangle_args_for_default_framework Demo.reg ([] ++ "cat" :: [])
  = Mangle.kept [] ++ "cat" :: "dflt" :: [] ++ Mangle.deferred [].
Proof.
  apply (default_after_bare_category Demo.reg [] "cat" [] "dflt").
  - constructor.
  - exact demo_cat_token.
  - constructor.
  - vm_compute. reflexivity.
Defined.

(** C10: every input token is in the output, as often as in the input; the
    output is a rearrangement of the input, or of the input and one more
    token, the default of the category the scan matched, itself a token of
    the input; so its length is that of the input, or one more. *)
Theorem mangle_keeps_every_token (reg : registry) (args : list string) :
  args ⊆ Mangle.mangle_args_for_default_framework reg args
  /\ (Mangle.mangle_args_for_default_framework reg args ≡ₚ args \/
      exists c d,
        Mangle.category_name (fold_left (Mangle.step reg) args Mangle.init) = Some c /\
        c ∈ args /\ is_Some (reg !! c) /\
        Mangle.default_of reg c = Some d /\
        Mangle.mangle_args_for_default_framework reg args ≡ₚ d :: args)
  /\ (length (Mangle.mangle_args_for_default_framework reg args) = length args \/
      length (Mangle.mangle_args_for_default_framework reg args) = S (length args)).
Proof.
  pose proof (mangle_permutation reg args) as Hperm.
  split; [|split; [exact Hperm|]].
  - intros a Ha. destruct Hperm as [Hp|(c & d & _ & _ & _ & _ & Hp)]; rewrite Hp.
    + done.
    + apply elem_of_cons. by right.
  - destruct Hperm as [Hp|(c & d & _ & _ & _ & _ & Hp)]; rewrite Hp; auto.
Qed.

(** * The version comparator *)

(** C1 as stated fails: with both versions absent the comparator answers
    [True], since it looks at the second version first. *)
Lemma both_absent_is_higher :
  Version.is_first_version_higher None None <> Ok false.
Proof. simpl. discriminate. Qed.

(** C1, amended: whatever the first version is, a version string or absent,
    it is higher than an absent second version; an absent first version is
    not higher than any version string. *)
Theorem absent_versions :
  (forall a : option string, Version.is_first_version_higher a None = Ok true)
  /\ (forall b : string, Version.is_first_version_higher None (Some b) = Ok false).
Proof. split; intros; reflexivity. Qed.

Section Comparator.

Import Version.

(** *** Digit strings parse *)

Lemma digit_facts c :
  is_digit c ->
  is_space c = false /\ Ascii.eqb c "_" = false /\
  c <> "+"%char /\ c <> "-"%char /\
  exists d, digit_val c = Some d /\ (0 <= d)%Z.
Proof.
  intros [d Hd].
  destruct c as [[] [] [] [] [] [] [] []]; vm_compute in Hd; try discriminate Hd;
    (repeat split; try reflexivity; try discriminate;
     eexists; split; [vm_compute; reflexivity | done]).
Qed.

Lemma all_digits_Forall s :
  all_digits s = true -> Forall is_digit (String.list_ascii_of_string s).
Proof.
  induction s as [|c s IH]; simpl; intros H; [constructor|].
  apply andb_true_iff in H as [Hc Hs]. constructor; [|by apply IH].
  by apply bool_decide_eq_true in Hc.
Qed.

Lemma lstrip_digits l : Forall is_digit l -> lstrip l = l.
Proof.
  intros [|c l' Hc _]; [reflexivity|]. simpl.
  by destruct (digit_facts c Hc) as [-> _].
Qed.

Lemma strip_digits l : Forall is_digit l -> strip l = l.
Proof.
  intros H. unfold strip. rewrite (lstrip_digits l H).
  rewrite lstrip_digits by (by apply Forall_rev).
  apply rev_involutive.
Qed.

Lemma digits_total l : forall acc after,
  Forall is_digit l -> (0 <= acc)%Z -> l <> [] \/ after = true ->
  exists n, digits acc after l = Some n /\ (0 <= n)%Z.
Proof.
  induction l as [|c l IH]; intros acc after Hl Hacc Hne; simpl.
  - destruct Hne as [Hne | ->]; [done|]. eauto.
  - inversion Hl as [|c0 l0 Hc Hl']; subst.
    destruct (digit_facts c Hc) as (_ & -> & _ & _ & d & -> & Hd).
    apply IH; [done | lia | by right].
Qed.

Lemma digit_run_digits l : Forall is_digit l -> digit_run l = (l, []).
Proof.
  induction 1 as [|c l Hc _ IH]; simpl; [reflexivity|].
  rewrite bool_decide_eq_true_2 by exact Hc. simpl. by rewrite IH.
Qed.

Lemma count_digits_digits l : Forall is_digit l -> count_digits l = length l.
Proof.
  unfold count_digits. induction 1 as [|c l Hc _ IH]; simpl; [reflexivity|].
  rewrite bool_decide_eq_true_2 by exact Hc. simpl. by rewrite IH.
Qed.

Lemma list_ascii_length s :
  length (String.list_ascii_of_string s) = String.length s.
Proof. induction s as [|c s IH]; simpl; [reflexivity | by rewrite IH]. Qed.

(** The loop over the digits computes the number the digits write. *)
Lemma digits_value s : forall acc after,
  all_digits s = true -> s <> "" \/ after = true ->
  digits acc after (String.list_ascii_of_string s)
  = Some (acc * 10 ^ Z.of_nat (String.length s) + numeral_value s)%Z.
Proof.
  induction s as [|c s IH]; intros acc after Hall Hne; simpl.
  - destruct Hne as [Hne | ->]; [done|]. f_equal. lia.
  - simpl in Hall. apply andb_true_iff in Hall as [Hc Hs].
    apply bool_decide_eq_true in Hc.
    destruct (digit_facts c Hc) as (_ & -> & _ & _ & d & Hd & _).
    rewrite Hd. rewrite IH by (done || by right).
    assert (d = Z.of_nat (nat_of_ascii c) - 48)%Z as ->.
    { unfold digit_val in Hd. destruct (_ && _); by inversion Hd. }
    f_equal. rewrite Nat2Z.inj_succ, Z.pow_succ_r by lia. ring.
Qed.

Lemma numeral_value_nonneg s : all_digits s = true -> (0 <= numeral_value s)%Z.
Proof.
  induction s as [|c s IH]; simpl; intros Hall; [done|].
  apply andb_true_iff in Hall as [Hc Hs]. apply bool_decide_eq_true in Hc.
  destruct (digit_facts c Hc) as (_ & _ & _ & _ & d & Hd & Hpos).
  assert (d = Z.of_nat (nat_of_ascii c) - 48)%Z as <-.
  { unfold digit_val in Hd. destruct (_ && _); by inversion Hd. }
  specialize (IH Hs).
  assert (0 <= 10 ^ Z.of_nat (String.length s))%Z by (apply Z.pow_nonneg; lia).
  nia.
Qed.

(** [int] on a string of digits within the limit gives the number the
    digits write. *)
Lemma int_digit_string s :
  digit_string s = true -> String.length s <= max_str_digits ->
  int s = Ok (numeral_value s) /\ (0 <= numeral_value s)%Z.
Proof.
  unfold digit_string. intros H Hlen. apply andb_true_iff in H as [Hne Hall].
  apply negb_true_iff, String.eqb_neq in Hne.
  pose proof (all_digits_Forall s Hall) as Hd.
  split; [|by apply numeral_value_nonneg].
  assert (magnitude (String.list_ascii_of_string s) = Value (numeral_value s)) as Hm.
  { unfold magnitude. rewrite (digit_run_digits _ Hd).
    rewrite (digits_value s 0 false Hall) by (by left).
    rewrite (count_digits_digits _ Hd), list_ascii_length.
    destruct (Nat.ltb_spec max_str_digits (String.length s)); [lia|].
    f_equal; lia. }
  unfold int. rewrite (strip_digits _ Hd).
  destruct s as [|c s]; [done|]. simpl String.list_ascii_of_string in *.
  inversion Hd as [|c0 l0 Hc Hrest]; subst.
  destruct (digit_facts c Hc) as (_ & _ & Hplus & Hminus & _).
  assert (match c :: String.list_ascii_of_string s with
          | "+"%char :: rest => magnitude rest
          | "-"%char :: rest =>
              match magnitude rest with
              | Value n => Value (- n)
              | other => other
              end
          | _ => magnitude (c :: String.list_ascii_of_string s)
          end = magnitude (c :: String.list_ascii_of_string s)) as ->.
  { clear -Hplus Hminus.
    destruct c as [[] [] [] [] [] [] [] []]; try reflexivity; congruence. }
  by rewrite Hm.
Qed.

Lemma parts_segments segs :
  forallb digit_string segs = true ->
  forallb (fun seg => (String.length seg <=? max_str_digits)%nat) segs = true ->
  mapM_result int segs = Ok (map numeral_value segs)
  /\ Forall (fun n => 0 <= n)%Z (map numeral_value segs).
Proof.
  induction segs as [|seg segs IH]; simpl; intros H Hl.
  - split; [reflexivity | constructor].
  - apply andb_true_iff in H as [Hseg Hsegs].
    apply andb_true_iff in Hl as [Hlseg Hlsegs].
    apply Nat.leb_le in Hlseg.
    destruct (int_digit_string seg Hseg Hlseg) as (-> & Hn).
    destruct (IH Hsegs Hlsegs) as (-> & Hp).
    split; [reflexivity | by constructor].
Qed.

(** A well formed version string within the limit always parses, to the
    non-negative numbers its segments write. *)
Lemma parts_well_formed v :
  well_formed v = true -> within_limit v = true ->
  parts v = Ok (segment_values v)
  /\ Forall (fun n => 0 <= n)%Z (segment_values v).
Proof. apply parts_segments. Qed.

(** *** The loop over the zipped segments *)

Lemma first_difference_common pre l1 l2 :
  first_difference (zip (pre ++ l1) (pre ++ l2)) = first_difference (zip l1 l2).
Proof.
  induction pre as [|x pre IH]; simpl; [reflexivity|].
  by rewrite Z.gtb_ltb, Z.ltb_irrefl.
Qed.

Lemma first_difference_differ x y s1 s2 :
  x <> y ->
  first_difference (zip (x :: s1) (y :: s2)) = Some (bool_decide (y < x)%Z).
Proof.
  intros Hne. simpl. rewrite Z.gtb_ltb.
  destruct (Z.ltb_spec y x) as [Hlt|Hge].
  - by rewrite bool_decide_eq_true_2.
  - rewrite bool_decide_eq_false_2 by lia.
    destruct (Z.ltb_spec x y); [reflexivity | lia].
Qed.

Lemma first_difference_prefix_l p s :
  first_difference (zip p (p ++ s)) = None.
Proof.
  rewrite <- (app_nil_r p) at 1. rewrite first_difference_common.
  reflexivity.
Qed.

Lemma first_difference_prefix_r p s :
  first_difference (zip (p ++ s) p) = None.
Proof.
  rewrite <- (app_nil_r p) at 2. rewrite first_difference_common.
  by destruct s.
Qed.

Lemma compare_parts_decided p1 p2 :
  decided_by_segments p1 p2 (compare_parts p1 p2).
Proof.
  unfold compare_parts. split; [|split].
  - intros pre x y s1 s2 -> -> Hne.
    by rewrite first_difference_common, first_difference_differ.
  - intros s Hs ->. rewrite first_difference_prefix_r.
    apply Nat.ltb_lt. rewrite length_app.
    destruct s; [done | simpl; lia].
  - intros s Hs ->. rewrite first_difference_prefix_l.
    apply Nat.ltb_ge. rewrite length_app. lia.
Qed.

(** Equal segment sequences: neither version is higher. *)
Lemma compare_parts_equal p : compare_parts p p = false.
Proof.
  unfold compare_parts.
  pose proof (first_difference_prefix_l p []) as H.
  rewrite app_nil_r in H. rewrite H. apply Nat.ltb_irrefl.
Qed.

(** Whatever two version strings parse to, the comparator answers as the
    segments decide. *)
Lemma parsed_versions_decide v1 v2 p1 p2 :
  parts v1 = Ok p1 -> parts v2 = Ok p2 ->
  is_first_version_higher (Some v1) (Some v2) = Ok (compare_parts p1 p2)
  /\ decided_by_segments p1 p2 (compare_parts p1 p2).
Proof.
  intros H1 H2. split; [|apply compare_parts_decided].
  unfold is_first_version_higher. by rewrite H1, H2.
Qed.

(** A segment that is no integer makes the comparison raise. *)
Lemma malformed_version_raises v1 v2 e :
  parts v1 = Raise e ->
  is_first_version_higher (Some v1) (Some v2) = Raise e.
Proof. intros H. unfold is_first_version_higher. by rewrite H. Qed.

End Comparator.

(** C5 as stated fails: a segment of 4301 digits is a non-negative
    integer, and [int] refuses it, so that the comparison raises
    [ValueError] instead of comparing. *)
Lemma long_segment_raises :
  ~ (forall v1 v2 : string,
       Version.well_formed v1 = true -> Version.well_formed v2 = true ->
       exists higher,
         Version.is_first_version_higher (Some v1) (Some v2) = Ok higher).
Proof.
  intros H.
  destruct (H Version.long_version "1") as [higher Hhigher];
    [vm_compute; reflexivity | reflexivity |].
  vm_compute in Hhigher. discriminate Hhigher.
Qed.

(** C5, amended: for two version strings whose dot separated segments are
    strings of one or more digits, at most 4300 digits each, the comparator
    parses both into the numbers their segments write and answers as these
    decide: the first pair of segments that differs decides, and of two
    sequences of which one is a strict prefix of the other the longer is
    the higher. So 2.1.0, with segments 2, 1, 0, is higher than 2.1, and
    1.9 is not higher than 1.10, with segments 1, 10. *)
Theorem version_segments_decide (v1 v2 : string) :
  Version.well_formed v1 = true -> Version.well_formed v2 = true ->
  Version.within_limit v1 = true -> Version.within_limit v2 = true ->
  (Version.parts v1 = Ok (Version.segment_values v1)
   /\ Version.parts v2 = Ok (Version.segment_values v2)
   /\ Forall (fun n => 0 <= n)%Z (Version.segment_values v1)
   /\ Forall (fun n => 0 <= n)%Z (Version.segment_values v2)
   /\ exists higher,
        Version.is_first_version_higher (Some v1) (Some v2) = Ok higher
        /\ Version.decided_by_segments
             (Version.segment_values v1) (Version.segment_values v2) higher)
  /\ Version.segment_values "2.1.0" = [2; 1; 0]%Z
  /\ Version.segment_values "1.10" = [1; 10]%Z
  /\ Version.is_first_version_higher (Some "2.1.0") (Some "2.1") = Ok true
  /\ Version.is_first_version_higher (Some "1.9") (Some "1.10") = Ok false.
Proof.
  intros H1 H2 L1 L2.
  split; [|repeat split; vm_compute; reflexivity].
  destruct (parts_well_formed v1 H1 L1) as (Hp1 & Hpos1).
  destruct (parts_well_formed v2 H2 L2) as (Hp2 & Hpos2).
  split; [exact Hp1|]. split; [exact Hp2|].
  split; [exact Hpos1|]. split; [exact Hpos2|].
  exists (Version.compare_parts (Version.segment_values v1)
            (Version.segment_values v2)).
  split.
  - unfold Version.is_first_version_higher. by rewrite Hp1, Hp2.
  - apply compare_parts_decided.
Qed.

Lemma version_segments_decide_witness :
  (Version.parts "2.1.0" = Ok (Version.segment_values "2.1.0")
   /\ Version.parts "2.1" = Ok (Version.segment_values "2.1")
   /\ Forall (fun n => 0 <= n)%Z (Version.segment_values "2.1.0")
   /\ Forall (fun n => 0 <= n)%Z (Version.segment_values "2.1")
   /\ exists higher,
        Version.is_first_version_higher (Some "2.1.0") (Some "2.1") = Ok higher
        /\ Version.decided_by_segments
             (Version.segment_values "2.1.0") (Version.segment_values "2.1") higher)
  /\ Version.segment_values "2.1.0" = [2; 1; 0]%Z
  /\ Version.segment_values "1.10" = [1; 10]%Z
  /\ Version.is_first_version_higher (Some "2.1.0") (Some "2.1") = Ok true
  /\ Version.is_first_version_higher (Some "1.9") (Some "1.10") = Ok false.
Proof.
  apply (version_segments_decide "2.1.0" "2.1"); vm_compute; reflexivity.
Defined.

(** * The renderer *)

(** C9: a request of a kind outside the five known ones is not ignored:
    the renderer logs an error that names it and has the main loop quit
    with a status that is not zero (it is 1). *)
Theorem unexpected_kind_quits (c : Display.content) (stdin : list string) :
  Display.handled c = false ->
  exists msg status,
    Display.events (Display._display c stdin) = [LogError msg; MainLoopQuit status]
    /\ exit_status (Display.events (Display._display c stdin)) = Some status
    /\ status <> 0%Z.
Proof.
  destruct c; simpl; try discriminate. intros _.
  eexists _, 1%Z. split; [reflexivity | split; [reflexivity | discriminate]].
Qed.

Lemma unexpected_kind_quits_witness :
  exists msg status,
    Display.events (Display._display (Display.Unexpected "<Widget>") ["y"])
    = [LogError msg; MainLoopQuit status]
    /\ exit_status
         (Display.events (Display._display (Display.Unexpected "<Widget>") ["y"]))
       = Some status
    /\ status <> 0%Z.
Proof.
  apply (unexpected_kind_quits (Display.Unexpected "<Widget>") ["y"]).
  reflexivity.
Defined.

(** * The update branch *)

Section UpdateBranch.

Import Update.

Variable reg : registry.
Variable parse_args : list string -> result Parsed.namespace.

Lemma bind_ok {A B} (m : run A) (k : A -> run B) tr b :
  m ≫= k = Run tr (Ok b) ->
  exists tr1 a tr2, m = Run tr1 (Ok a) /\ k a = Run tr2 (Ok b) /\ tr = tr1 ++ tr2.
Proof.
  destruct m as [tr1 [a|e]]; unfold mbind, run_bind; simpl; [|discriminate].
  destruct (k a) as [tr2 r] eqn:Hk; simpl. intros [= <- ->]. eauto 6.
Qed.

Lemma outdated_check_true latest user :
  outdated_check latest user = Ok true ->
  exists l u, latest = Some l /\ user = Some u /\
              Version.is_first_version_higher (Some l) (Some u) = Ok true.
Proof.
  unfold outdated_check.
  destruct latest as [l|], user as [u|]; simpl; try discriminate; eauto.
Qed.

(** If either version is absent the framework is not outdated. *)
Lemma outdated_check_absent latest user :
  latest = None \/ user = None -> outdated_check latest user = Ok false.
Proof.
  unfold outdated_check. intros [-> | ->]; [reflexivity|].
  by destruct latest.
Qed.

(** One iteration leaves the list as it was, or adds one element for the
    framework it looked at. *)
Lemma check_one_adds acc i tr out :
  check_one reg acc i = Run tr (Ok out) ->
  out = acc \/ exists e, out = acc ++ [e] /\ classified reg i e.
Proof.
  unfold check_one.
  destruct ((category_name i =? "java") || (framework_name i =? "firefox-dev")).
  { intros [= _ <-]. by left. }
  destruct (reg !! category_name i) as [cat|] eqn:Hcat; [|discriminate].
  destruct (frameworks cat !! framework_name i) as [fw|] eqn:Hfw; [|discriminate].
  destruct (supports_update fw); [|intros [= _ <-]; by left].
  unfold mbind, run_bind, lift, emit; cbn [trace ended].
  destruct (outdated_check (get_latest_version fw)
              (get_current_user_version fw (install_path i))) as [[]|e] eqn:Hchk;
    cbn [trace ended];
    [|intros [= _ <-]; by left|discriminate].
  intros [= _ <-]. right. eexists. split; [reflexivity|].
  apply outdated_check_true in Hchk as (l & u & Hl & Hu & Hhigher).
  exists cat, fw, u, l. simpl. by rewrite Hl, Hu.
Qed.

Lemma check_all_adds installed : forall acc tr out,
  check_all reg acc installed = Run tr (Ok out) ->
  exists added,
    out = acc ++ added /\
    Forall (fun e => exists i, i ∈ installed /\ classified reg i e) added.
Proof.
  induction installed as [|i installed IH]; intros acc tr out; simpl.
  - intros [= _ <-]. exists []. split; [by rewrite app_nil_r | constructor].
  - intros H. apply bind_ok in H as (tr1 & mid & tr2 & H1 & H2 & _).
    apply check_one_adds in H1. apply IH in H2 as (added & -> & Hadded).
    assert (Forall (fun e => exists i0, i0 ∈ i :: installed /\ classified reg i0 e)
              added) as Hadded'.
    { eapply Forall_impl; [exact Hadded|]. intros e (i0 & Hin & Hc).
      exists i0. split; [by apply elem_of_cons; right | done]. }
    destruct H1 as [-> | (e & -> & He)].
    + exists added. done.
    + exists (e :: added). split; [by rewrite <- app_assoc|].
      constructor; [|done]. exists i. split; [by apply elem_of_cons; left | done].
Qed.

(** *** The report and the re-invocation *)

Lemma commands_run_app evs1 evs2 :
  commands_run (evs1 ++ evs2) = commands_run evs1 ++ commands_run evs2.
Proof. apply omap_app. Qed.

Lemma commands_run_prints lines : commands_run (Print <$> lines) = [].
Proof. induction lines; [reflexivity | done]. Qed.

Lemma parse_calls_app evs1 evs2 :
  parse_calls (evs1 ++ evs2) = parse_calls evs1 ++ parse_calls evs2.
Proof. apply omap_app. Qed.

Lemma parse_calls_prints lines : parse_calls (Print <$> lines) = [].
Proof. induction lines; [reflexivity | done]. Qed.

(** Looking for updates re-invokes nothing. *)
Lemma check_one_quiet acc i : commands_run (trace (check_one reg acc i)) = [].
Proof.
  unfold check_one.
  destruct ((category_name i =? "java") || (framework_name i =? "firefox-dev"));
    [reflexivity|].
  destruct (reg !! category_name i) as [cat|]; [|reflexivity].
  destruct (frameworks cat !! framework_name i) as [fw|]; [|reflexivity].
  destruct (supports_update fw); [|reflexivity].
  unfold mbind, run_bind, lift, emit; cbn [trace ended].
  destruct (outdated_check _ _) as [[]|e]; reflexivity.
Qed.

Lemma check_all_quiet installed : forall acc,
  commands_run (trace (check_all reg acc installed)) = [].
Proof.
  induction installed as [|i installed IH]; intros acc; simpl; [reflexivity|].
  pose proof (check_one_quiet acc i) as H1.
  unfold mbind, run_bind. destruct (check_one reg acc i) as [tr1 [mid|e]]; simpl in *.
  - by rewrite commands_run_app, H1, IH.
  - done.
Qed.

(** Looking for updates calls no parser. *)
Lemma check_one_parses_nothing acc i : parse_calls (trace (check_one reg acc i)) = [].
Proof.
  unfold check_one.
  destruct ((category_name i =? "java") || (framework_name i =? "firefox-dev"));
    [reflexivity|].
  destruct (reg !! category_name i) as [cat|]; [|reflexivity].
  destruct (frameworks cat !! framework_name i) as [fw|]; [|reflexivity].
  destruct (supports_update fw); [|reflexivity].
  unfold mbind, run_bind, lift, emit; cbn [trace ended].
  destruct (outdated_check _ _) as [[]|e]; reflexivity.
Qed.

Lemma check_all_parses_nothing installed : forall acc,
  parse_calls (trace (check_all reg acc installed)) = [].
Proof.
  induction installed as [|i installed IH]; intros acc; simpl; [reflexivity|].
  pose proof (check_one_parses_nothing acc i) as H1.
  unfold mbind, run_bind. destruct (check_one reg acc i) as [tr1 [mid|e]]; simpl in *.
  - by rewrite parse_calls_app, H1, IH.
  - done.
Qed.

Lemma print_lines_ok term mn mv data :
  Forall (fun e => is_Some (latest_version e)) data ->
  exists lines, print_lines term mn mv data = Run (Print <$> lines) (Ok tt).
Proof.
  induction 1 as [|e data [l Hl] _ (lines & IH)]; simpl.
  - by exists [].
  - unfold report_line. rewrite Hl. simpl.
    unfold run_bind; cbn [trace ended]. rewrite IH. cbn [trace ended app].
    eexists (_ :: lines). reflexivity.
Qed.

Lemma lengths_ok data :
  Forall (fun e => is_Some (latest_version e)) data ->
  exists lengths,
    mapM_result (fun item => len_version (latest_version item)) data = Ok lengths
    /\ length lengths = length data.
Proof.
  induction 1 as [|e data [l Hl] _ (lengths & IH & Hlen)]; simpl.
  - by exists [].
  - rewrite Hl, IH. simpl. eexists (_ :: lengths). split; [reflexivity|].
    simpl. by rewrite Hlen.
Qed.

(** On a list that is not empty and holds the latest versions, the report
    prints its lines and nothing else. *)
Lemma pretty_print_versions_ok term data :
  data <> [] ->
  Forall (fun e => is_Some (latest_version e)) data ->
  exists lines, pretty_print_versions term data = Run (Print <$> lines) (Ok tt).
Proof.
  intros Hne Hall. unfold pretty_print_versions.
  destruct (lengths_ok data Hall) as (lengths & Hlengths & Hlen).
  destruct data as [|e data]; [done|].
  destruct lengths as [|n lengths]; [discriminate Hlen|].
  rewrite Hlengths. unfold mbind, run_bind, lift; cbn [trace ended max_of map app].
  unfold mbind, result_bind; cbn [trace ended max_of map app].
  destruct (print_lines_ok term
              (foldl Nat.max (String.length (o_framework_name e))
                 (map (fun item => String.length (o_framework_name item)) data))
              (foldl Nat.max n lengths) (e :: data) Hall) as (lines & Hlines).
  rewrite Hlines. by exists lines.
Qed.

(** The loop over the outdated frameworks returns from its first
    iteration. *)
Lemma for_each_reinvoke o rest :
  for_each (reinvoke parse_args) (o :: rest)
  = Run (ParseArgs [o_category_name o; o_framework_name o] ::
         match parse_args [o_category_name o; o_framework_name o] with
         | Ok args =>
             [NewCliUI;
              RunCommandForArgs (default "" (Parsed.category args))
                (Parsed.framework args)]
         | Raise _ => []
         end)
        (match parse_args [o_category_name o; o_framework_name o] with
         | Ok _ => Ok Return
         | Raise e => Raise e
         end).
Proof.
  simpl. unfold reinvoke, mbind, run_bind, lift, emit; cbn [trace ended].
  by destruct (parse_args _).
Qed.

(** With something outdated the branch prints the report and goes through
    the first iteration of the loop: the parser is called on the first
    element; if it raises, the exception ends the run; otherwise the
    command runs on the namespace it gave and [main] returns. *)
Lemma update_outdated frameworks term tr o rest :
  check_all reg [] (installed_frameworks frameworks) = Run tr (Ok (o :: rest)) ->
  exists lines,
    update reg parse_args frameworks term
    = Run (tr ++ (Print <$> lines) ++
           ParseArgs [o_category_name o; o_framework_name o] ::
           match parse_args [o_category_name o; o_framework_name o] with
           | Ok args =>
               [NewCliUI;
                RunCommandForArgs (default "" (Parsed.category args))
                  (Parsed.framework args)]
           | Raise _ => []
           end)
          (match parse_args [o_category_name o; o_framework_name o] with
           | Ok _ => Ok tt
           | Raise e => Raise e
           end).
Proof.
  intros H. unfold update. rewrite H.
  destruct (check_all_adds _ _ _ _ H) as (added & Hadded & Hall).
  simpl in Hadded. subst added.
  destruct (pretty_print_versions_ok term (o :: rest)) as (lines & Hlines);
    [done| |].
  { eapply Forall_impl; [exact Hall|]. intros e (i & _ & Hc).
    destruct Hc as (cat & fw & u & l & _ & _ & _ & _ & _ & _ & _ & Hl & _).
    by exists l. }
  exists lines. unfold mbind at 1, run_bind; cbn [trace ended length Nat.eqb].
  rewrite Hlines, for_each_reinvoke.
  unfold mbind, run_bind; cbn [trace ended].
  by destruct (parse_args _).
Qed.

(** With nothing outdated the branch says so and exits with status 0. *)
Lemma update_up_to_date frameworks term tr :
  check_all reg [] (installed_frameworks frameworks) = Run tr (Ok []) ->
  update reg parse_args frameworks term
  = Run (tr ++ [Print "All packages are up-to-date."]) (Raise (SystemExit 0)).
Proof. intros H. unfold update. rewrite H. reflexivity. Qed.

(** *** The order of the outdated frameworks *)

Lemma Forall_insert_by_name (P : installed -> Prop) x l :
  Forall P (insert_by_name x l) <-> P x /\ Forall P l.
Proof.
  induction l as [|y l IH]; simpl.
  - rewrite Forall_singleton. split; [intros Hx; split; [done|constructor] | tauto].
  - destruct (String.leb (framework_name x) (framework_name y)).
    + by rewrite Forall_cons.
    + rewrite !Forall_cons, IH. tauto.
Qed.

Lemma insert_by_name_sorted x l :
  StronglySorted String.le (framework_name <$> l) ->
  StronglySorted String.le (framework_name <$> insert_by_name x l).
Proof.
  induction l as [|y l IH]; simpl; intros Hs.
  - repeat constructor.
  - apply StronglySorted_cons in Hs as [Hy Hl].
    destruct (String.leb (framework_name x) (framework_name y)) eqn:E.
    + assert (String.le (framework_name x) (framework_name y)) as Hxy
        by (unfold String.le; by rewrite E).
      simpl. apply StronglySorted_cons. split.
      * constructor; [done|]. eapply Forall_impl; [exact Hy|].
        intros z Hz. by etrans.
      * by apply StronglySorted_cons.
    + assert (String.le (framework_name y) (framework_name x)) as Hyx.
      { destruct (total String.le (framework_name x) (framework_name y)) as [H|H];
          [|done]. unfold String.le in H. rewrite E in H. done. }
      simpl. apply StronglySorted_cons. split; [|by apply IH].
      rewrite Forall_fmap. apply Forall_insert_by_name. split; [exact Hyx|].
      rewrite <- Forall_fmap. exact Hy.
Qed.

Lemma sorted_by_name_sorted l :
  StronglySorted String.le (framework_name <$> sorted_by_name l).
Proof.
  induction l as [|x l IH]; simpl; [constructor|].
  by apply insert_by_name_sorted.
Qed.

Lemma insert_by_name_perm x l : insert_by_name x l ≡ₚ x :: l.
Proof.
  induction l as [|y l IH]; simpl; [done|].
  destruct (String.leb _ _); [done|]. by rewrite IH, perm_swap.
Qed.

Lemma sorted_by_name_perm l : sorted_by_name l ≡ₚ l.
Proof.
  induction l as [|x l IH]; simpl; [done|].
  by rewrite insert_by_name_perm, IH.
Qed.

Lemma sorted_sublist (l1 l2 : list string) :
  l1 `sublist_of` l2 -> StronglySorted String.le l2 -> StronglySorted String.le l1.
Proof.
  induction 1 as [|x l1 l2 Hsub IH|x l1 l2 Hsub IH]; intros Hs.
  - constructor.
  - apply StronglySorted_cons in Hs as [Hx Hl]. apply StronglySorted_cons.
    split; [|by apply IH]. rewrite Forall_forall in Hx |- *.
    intros y Hy. apply Hx. eapply elem_of_sublist; eauto.
  - apply StronglySorted_cons in Hs as [_ Hl]. by apply IH.
Qed.

(** The outdated frameworks come in the order of the installed ones. *)
Lemma check_all_order installed : forall acc tr out,
  check_all reg acc installed = Run tr (Ok out) ->
  exists added,
    out = acc ++ added /\
    (o_framework_name <$> added) `sublist_of` (framework_name <$> installed).
Proof.
  induction installed as [|i installed IH]; intros acc tr out; simpl.
  - intros [= _ <-]. exists []. split; [by rewrite app_nil_r | constructor].
  - intros H. apply bind_ok in H as (tr1 & mid & tr2 & H1 & H2 & _).
    apply check_one_adds in H1. apply IH in H2 as (added & -> & Hsub).
    destruct H1 as [-> | (e & -> & He)].
    + exists added. split; [done|]. by apply sublist_cons.
    + exists (e :: added). split; [by rewrite <- app_assoc|].
      destruct He as (cat & fw & u & l & _ & _ & Hname & _).
      simpl. rewrite Hname. by apply sublist_skip.
Qed.

(** The list of outdated frameworks is sorted by name. *)
Lemma outdated_sorted frameworks tr out :
  check_all reg [] (installed_frameworks frameworks) = Run tr (Ok out) ->
  StronglySorted String.le (o_framework_name <$> out).
Proof.
  intros H. apply check_all_order in H as (added & -> & Hsub). simpl.
  eapply sorted_sublist; [exact Hsub|]. apply sorted_by_name_sorted.
Qed.

End UpdateBranch.

(** C7: every element of the list of outdated frameworks was made for an
    installed framework whose installed version and latest version were
    both read (neither is [None]) and whose latest version the comparator
    finds higher than the installed one. *)
Theorem outdated_needs_both_versions
    (reg : registry) (installed : list Update.installed)
    (tr : list event) (out : list Update.outdated) (e : Update.outdated) :
  Update.check_all reg [] installed = Update.Run tr (Ok out) ->
  e ∈ out ->
  exists i, i ∈ installed /\ Update.classified reg i e.
Proof.
  intros H He. apply check_all_adds in H as (added & -> & Hadded).
  simpl in He. rewrite Forall_forall in Hadded. by apply Hadded.
Qed.

Lemma outdated_needs_both_versions_witness :
  exists i, i ∈ Update.installed_frameworks DemoUpdate.listed
            /\ Update.classified Demo.reg i DemoUpdate.only_entry.
Proof.
  apply (outdated_needs_both_versions Demo.reg
           (Update.installed_frameworks DemoUpdate.listed) DemoUpdate.fetches
           [DemoUpdate.fw_entry; DemoUpdate.only_entry] DemoUpdate.only_entry).
  - vm_compute. reflexivity.
  - apply list_elem_of_In. simpl. auto.
Defined.

(** C4 as stated fails: the command is not run once whenever something is
    outdated. The loop first hands the category and the framework of the
    first element to [parser.parse_args]; when the parser raises, as
    argparse does with [SystemExit] on a vector it refuses, [main] ends
    there and no command has run. *)
Lemma refused_reparse_runs_nothing :
  ~ (forall (reg : registry) (parse_args : list string -> result Parsed.namespace)
            (frameworks : list Update.category_info) (term : option string)
            (tr : list event) (o : Update.outdated) (rest : list Update.outdated),
       Update.check_all reg [] (Update.installed_frameworks frameworks)
       = Update.Run tr (Ok (o :: rest)) ->
       length (Update.commands_run
                 (Update.trace (Update.update reg parse_args frameworks term)))
       = 1%nat).
Proof.
  intros H.
  specialize (H Demo.reg DemoUpdate.refuse DemoUpdate.listed None
                DemoUpdate.fetches DemoUpdate.fw_entry [DemoUpdate.only_entry]).
  vm_compute in H. specialize (H eq_refl). discriminate H.
Qed.

(** C4, amended: when the list of outdated frameworks is not empty, the
    branch prints the report and goes once through the loop, for the first
    element of the list: [parser.parse_args] is called on the category and
    the framework of that element and on nothing else. If the parser
    returns a namespace, [CliUI()] and [run_command_for_args] follow, the
    command is the one the namespace names, it is the only one, and [main]
    returns. If the parser raises, its exception ends the run and no
    command has run. Either way no other element is processed. The list is
    sorted: no other element has a name below that of the first. *)
Theorem update_reinvokes_first_only
    (reg : registry) (parse_args : list string -> result Parsed.namespace)
    (frameworks : list Update.category_info)
    (term : option string) (tr : list event)
    (o : Update.outdated) (rest : list Update.outdated) :
  Update.check_all reg [] (Update.installed_frameworks frameworks)
  = Update.Run tr (Ok (o :: rest)) ->
  (exists lines,
     Update.update reg parse_args frameworks term
     = Update.Run
         (tr ++ (Print <$> lines) ++
          ParseArgs [Update.o_category_name o; Update.o_framework_name o] ::
          match parse_args [Update.o_category_name o; Update.o_framework_name o] with
          | Ok args =>
              [NewCliUI;
               RunCommandForArgs (default "" (Parsed.category args))
                 (Parsed.framework args)]
          | Raise _ => []
          end)
         (match parse_args [Update.o_category_name o; Update.o_framework_name o] with
          | Ok _ => Ok tt
          | Raise e => Raise e
          end))
  /\ Update.parse_calls
       (Update.trace (Update.update reg parse_args frameworks term))
     = [[Update.o_category_name o; Update.o_framework_name o]]
  /\ Update.commands_run
       (Update.trace (Update.update reg parse_args frameworks term))
     = match parse_args [Update.o_category_name o; Update.o_framework_name o] with
       | Ok args => [(default "" (Parsed.category args), Parsed.framework args)]
       | Raise _ => []
       end
  /\ Forall (fun e => String.le (Update.o_framework_name o)
                                (Update.o_framework_name e)) rest.
Proof.
  intros H.
  destruct (update_outdated reg parse_args frameworks term tr o rest H) as (lines & E).
  split; [by exists lines|]. split; [|split].
  - rewrite E. simpl.
    rewrite !parse_calls_app, parse_calls_prints.
    pose proof (check_all_parses_nothing reg
                  (Update.installed_frameworks frameworks) []) as Hq.
    rewrite H in Hq. simpl in Hq. rewrite Hq.
    by destruct (parse_args _).
  - rewrite E. simpl.
    rewrite !commands_run_app, commands_run_prints.
    pose proof (check_all_quiet reg (Update.installed_frameworks frameworks) []) as Hq.
    rewrite H in Hq. simpl in Hq. rewrite Hq.
    by destruct (parse_args _).
  - apply outdated_sorted in H. simpl in H.
    apply StronglySorted_cons in H as [Hfirst _].
    rewrite Forall_fmap in Hfirst. exact Hfirst.
Qed.

Lemma update_reinvokes_first_only_witness :
  ((exists lines,
      Update.update Demo.reg DemoUpdate.parse_args DemoUpdate.listed (Some "xterm")
      = Update.Run
          (DemoUpdate.fetches ++ (Print <$> lines) ++
           [ParseArgs ["cat"; "fw"]; NewCliUI; RunCommandForArgs "cat" "fw"])
          (Ok tt))
   /\ Update.parse_calls
        (Update.trace
           (Update.update Demo.reg DemoUpdate.parse_args DemoUpdate.listed
              (Some "xterm")))
      = [["cat"; "fw"]]
   /\ Update.commands_run
        (Update.trace
           (Update.update Demo.reg DemoUpdate.parse_args DemoUpdate.listed
              (Some "xterm")))
      = [("cat", "fw")]
   /\ Forall (fun e => String.le "fw" (Update.o_framework_name e))
        [DemoUpdate.only_entry])
  /\ ((exists lines,
         Update.update Demo.reg DemoUpdate.refuse DemoUpdate.listed (Some "xterm")
         = Update.Run
             (DemoUpdate.fetches ++ (Print <$> lines) ++ [ParseArgs ["cat"; "fw"]])
             (Raise (SystemExit 2)))
      /\ Update.parse_calls
           (Update.trace
              (Update.update Demo.reg DemoUpdate.refuse DemoUpdate.listed
                 (Some "xterm")))
         = [["cat"; "fw"]]
      /\ Update.commands_run
           (Update.trace
              (Update.update Demo.reg DemoUpdate.refuse DemoUpdate.listed
                 (Some "xterm")))
         = []
      /\ Forall (fun e => String.le "fw" (Update.o_framework_name e))
           [DemoUpdate.only_entry]).
Proof.
  split.
  - apply (update_reinvokes_first_only Demo.reg DemoUpdate.parse_args
             DemoUpdate.listed (Some "xterm")
             DemoUpdate.fetches DemoUpdate.fw_entry [DemoUpdate.only_entry]).
    vm_compute. reflexivity.
  - apply (update_reinvokes_first_only Demo.reg DemoUpdate.refuse
             DemoUpdate.listed (Some "xterm")
             DemoUpdate.fetches DemoUpdate.fw_entry [DemoUpdate.only_entry]).
    vm_compute. reflexivity.
Defined.

(** * More on the resolver *)

Section ResolverShape.

Import Mangle Shape.

Variable reg : registry.

Lemma leading_options_split args :
  args = (leading_options args).1 ++ (leading_options args).2
  /\ options (leading_options args).1
  /\ match (leading_options args).2 with
     | [] => True
     | t :: _ => startswith_dash t = false
     end.
Proof.
  induction args as [|a args (IH1 & IH2 & IH3)]; simpl.
  - repeat split. constructor.
  - destruct (startswith_dash a) eqn:Ea.
    + destruct (leading_options args) as [opts tail]; simpl in *.
      repeat split; [by f_equal | by constructor | done].
    + simpl. repeat split; [constructor | done].
Qed.

Lemma leading_options_of opts tail :
  options opts ->
  match tail with [] => True | t :: _ => startswith_dash t = false end ->
  leading_options (opts ++ tail) = (opts, tail).
Proof.
  intros Ho Ht. induction Ho as [|a opts Ha Ho IH]; simpl.
  - destruct tail as [|t tail]; [reflexivity|]. simpl. by rewrite Ht.
  - by rewrite Ha, IH.
Qed.

Lemma body_after_body_of c post body :
  body_after reg c post body -> body = body_of reg c post.
Proof.
  unfold body_of.
  intros [[Hopt ->]|(opts & t & rest & -> & Ho & Ht & ->)].
  - pose proof (leading_options_of post [] Hopt I) as E.
    rewrite app_nil_r in E. by rewrite E.
  - by rewrite (leading_options_of opts (t :: rest) Ho Ht).
Qed.

(** The output for a vector with a category token, as a function of the
    vector. *)
Lemma mangle_with_category pre c post :
  options pre -> category_token reg c ->
  mangle_args_for_default_framework reg (pre ++ c :: post)
  = kept pre ++ c :: body_of reg c post ++ deferred pre.
Proof.
  intros Hpre Hc.
  destruct (mangle_category_shape reg pre c post Hpre Hc) as (body & -> & Hb).
  by rewrite (body_after_body_of c post body Hb).
Qed.

Lemma find_positional_options opts tail :
  options opts ->
  List.find (fun a => negb (startswith_dash a)) (opts ++ tail)
  = List.find (fun a => negb (startswith_dash a)) tail.
Proof.
  induction 1 as [|a opts Ha Ho IH]; simpl; [reflexivity|]. by rewrite Ha.
Qed.

Lemma kept_options_only l : deferred l = [] -> kept l = l.
Proof.
  unfold kept, deferred. induction l as [|a l IH]; simpl; [reflexivity|].
  destruct (is_remove a); simpl; [discriminate|]. intros H. by rewrite IH.
Qed.

Lemma kept_kept l : kept (kept l) = kept l.
Proof.
  unfold kept. induction l as [|a l IH]; simpl; [reflexivity|].
  destruct (is_remove a) eqn:E; simpl; [done|]. by rewrite E, IH.
Qed.

Lemma deferred_kept l : deferred (kept l) = [].
Proof.
  unfold kept, deferred. induction l as [|a l IH]; simpl; [reflexivity|].
  destruct (is_remove a) eqn:E; simpl; [done|]. by rewrite E.
Qed.

Lemma kept_deferred l : kept (deferred l) = [].
Proof.
  unfold kept, deferred. induction l as [|a l IH]; simpl; [reflexivity|].
  destruct (is_remove a) eqn:E; simpl; [|done]. by rewrite E.
Qed.

Lemma deferred_deferred l : deferred (deferred l) = deferred l.
Proof.
  unfold deferred. induction l as [|a l IH]; simpl; [reflexivity|].
  destruct (is_remove a) eqn:E; simpl; [|done]. by rewrite E, IH.
Qed.

Lemma options_kept l : options l -> options (kept l).
Proof.
  unfold kept, options. intros H. induction H as [|a l Ha Hl IH]; simpl;
    [constructor|]. destruct (is_remove a); simpl; [done | by constructor].
Qed.

Lemma options_deferred l : options (deferred l).
Proof.
  unfold deferred, options. induction l as [|a l IH]; simpl; [constructor|].
  destruct (is_remove a) eqn:E; [|done].
  constructor; [by apply is_remove_dash | done].
Qed.

Lemma kept_app l1 l2 : kept (l1 ++ l2) = kept l1 ++ kept l2.
Proof. apply List.filter_app. Qed.

Lemma deferred_app l1 l2 : deferred (l1 ++ l2) = deferred l1 ++ deferred l2.
Proof. apply List.filter_app. Qed.

Lemma find_positional_kept l :
  List.find (fun a => negb (startswith_dash a)) (kept l ++ deferred l)
  = List.find (fun a => negb (startswith_dash a)) l.
Proof.
  induction l as [|a l IH]; [reflexivity|].
  unfold kept, deferred in *. simpl.
  destruct (is_remove a) eqn:E; simpl.
  - rewrite (is_remove_dash a E). simpl. rewrite <- IH.
    clear IH. induction (List.filter (fun arg => negb (is_remove arg)) l)
      as [|b k IHk]; simpl.
    + by rewrite (is_remove_dash a E).
    + by destruct (startswith_dash b).
  - destruct (startswith_dash a); simpl; [exact IH | reflexivity].
Qed.

Lemma pass_through_twice l :
  kept (kept l ++ deferred l) ++ deferred (kept l ++ deferred l)
  = kept l ++ deferred l.
Proof.
  by rewrite kept_app, deferred_app, kept_kept, kept_deferred, deferred_kept,
    deferred_deferred, app_nil_r.
Qed.

Lemma body_of_stable c post D :
  registry_ok reg -> options D ->
  body_of reg c (body_of reg c post ++ D) = body_of reg c post ++ D.
Proof.
  intros [_ Hdef] HD.
  assert (forall d l, default_of reg c = Some d -> body_of reg c (d :: l) = d :: l)
    as Hhead.
  { intros d l Hd. destruct (Hdef c d Hd) as [Hdash Hfw].
    unfold body_of. simpl. by rewrite Hdash, Hfw. }
  destruct (leading_options_split post) as (Hsplit & Ho & Ht).
  destruct (leading_options post) as [o tl] eqn:El; simpl in *. subst post.
  unfold body_of at 2 3. rewrite El.
  destruct tl as [|t r].
  - rewrite app_nil_r in *. destruct (default_of reg c) as [d|] eqn:Hd; simpl.
    + by apply Hhead.
    + unfold body_of.
      pose proof (leading_options_of (o ++ D) []) as E. rewrite app_nil_r in E.
      rewrite E; [|by apply Forall_app|done]. by rewrite Hd.
  - destruct (is_framework reg c t) eqn:Hfw.
    { unfold body_of. simpl. by rewrite Ht, Hfw. }
    assert (leading_options ((o ++ t :: r) ++ D) = (o, t :: r ++ D)) as El'.
    { rewrite <- app_assoc. simpl. by apply leading_options_of. }
    destruct (default_of reg c) as [d|] eqn:Hd.
    + destruct (contains_sep t) eqn:Hsep.
      * simpl. by apply Hhead.
      * unfold body_of. by rewrite El', Hfw, Hd, Hsep.
    + unfold body_of. by rewrite El', Hfw, Hd.
Qed.

End ResolverShape.

(** X1: when the first token without a leading dash is not a category, or
    there is no such token, nothing is added: the output is the input with
    its remove flags moved behind the rest, and the input itself when it
    holds no remove flag. *)
Theorem unknown_first_token_passes_through (reg : registry) (args : list string) :
  (forall t, List.find (fun a => negb (startswith_dash a)) args = Some t ->
             Mangle.is_category reg t = false) ->
  Mangle.mangle_args_for_default_framework reg args
  = Mangle.kept args ++ Mangle.deferred args
  /\ (Mangle.deferred args = [] ->
      Mangle.mangle_args_for_default_framework reg args = args).
Proof.
  intros H. rewrite (mangle_no_category reg args H). split; [reflexivity|].
  intros Hd. by rewrite Hd, app_nil_r, kept_options_only.
Qed.

Lemma unknown_first_token_passes_through_witness :
  Mangle.mangle_args_for_default_framework Demo.reg ["-v"; "unknowntoken"; "cat"]
  = Mangle.kept ["-v"; "unknowntoken"; "cat"]
    ++ Mangle.deferred ["-v"; "unknowntoken"; "cat"]
  /\ (Mangle.deferred ["-v"; "unknowntoken"; "cat"] = [] ->
      Mangle.mangle_args_for_default_framework Demo.reg ["-v"; "unknowntoken"; "cat"]
      = ["-v"; "unknowntoken"; "cat"]).
Proof.
  apply (unknown_first_token_passes_through Demo.reg ["-v"; "unknowntoken"; "cat"]).
  intros t [= <-]. vm_compute. reflexivity.
Defined.

(** X2: a vector that names a category and, right after it, one of its
    frameworks, with only options that are no remove flags before the
    category, is left as it is, whatever follows the framework. *)
Theorem known_framework_unchanged
    (reg : registry) (pre : list string) (c t : string) (rest : list string) :
  Mangle.options pre -> Mangle.deferred pre = [] ->
  Mangle.category_token reg c ->
  startswith_dash t = false -> Mangle.is_framework reg c t = true ->
  Mangle.mangle_args_for_default_framework reg (pre ++ c :: t :: rest)
  = pre ++ c :: t :: rest.
Proof.
  intros Hpre Hnone Hc Ht Hfw.
  rewrite (mangle_with_category reg pre c (t :: rest) Hpre Hc).
  rewrite Hnone, app_nil_r, (kept_options_only pre Hnone).
  unfold Shape.body_of. simpl. by rewrite Ht, Hfw.
Qed.

Lemma known_framework_unchanged_witness :
  Mangle.mangle_args_for_default_framework Demo.reg
    (["-v"] ++ "cat" :: "fw" :: ["/opt/fw"; "-r"])
  = ["-v"] ++ "cat" :: "fw" :: ["/opt/fw"; "-r"].
Proof.
  apply (known_framework_unchanged Demo.reg ["-v"] "cat" "fw" ["/opt/fw"; "-r"]).
  - repeat constructor.
  - reflexivity.
  - exact demo_cat_token.
  - reflexivity.
  - vm_compute. reflexivity.
Defined.

Lemma demo_registry_ok : Shape.registry_ok Demo.reg.
Proof.
  split; [vm_compute; reflexivity|]. intros c d.
  unfold Mangle.default_of, Mangle.is_framework, Demo.reg.
  destruct (decide (c = "cat")) as [->|Hcat].
  { rewrite lookup_insert_eq. simpl. intros [= <-]. split; reflexivity. }
  rewrite lookup_insert_ne by done.
  destruct (decide (c = "bare")) as [->|Hbare].
  { rewrite lookup_insert_eq. simpl. discriminate. }
  rewrite lookup_insert_ne by done. rewrite lookup_empty. simpl. discriminate.
Defined.

(** X3: when no category has the empty name and every default framework is
    a framework of its category under a name without leading dash, the
    resolver changes nothing in a vector it has produced. *)
Theorem mangle_idempotent (reg : registry) (args : list string) :
  Shape.registry_ok reg ->
  Mangle.mangle_args_for_default_framework reg
    (Mangle.mangle_args_for_default_framework reg args)
  = Mangle.mangle_args_for_default_framework reg args.
Proof.
  intros Hok.
  assert (forall l,
    (forall t, List.find (fun a => negb (startswith_dash a)) l = Some t ->
               Mangle.is_category reg t = false) ->
    Mangle.mangle_args_for_default_framework reg
      (Mangle.mangle_args_for_default_framework reg l)
    = Mangle.mangle_args_for_default_framework reg l) as Hpass.
  { intros l Hl. rewrite (mangle_no_category reg l Hl).
    rewrite mangle_no_category; [apply pass_through_twice|].
    intros t. rewrite find_positional_kept. apply Hl. }
  destruct (leading_options_split args) as (Hsplit & Ho & Ht).
  destruct (Shape.leading_options args) as [opts tl]; simpl in *. subst args.
  destruct tl as [|t rest].
  { apply Hpass. intros t. rewrite find_positional_options by done. discriminate. }
  destruct (Mangle.is_category reg t) eqn:Hcat.
  - assert (Mangle.category_token reg t) as Hc.
    { unfold Mangle.is_category in Hcat. apply bool_decide_eq_true in Hcat.
      repeat split; [done| |done].
      intros ->. destruct Hok as [Hempty _]. rewrite Hempty in Hcat.
      by destruct Hcat. }
    rewrite (mangle_with_category reg opts t rest Ho Hc).
    rewrite (mangle_with_category reg (Mangle.kept opts) t
               (Shape.body_of reg t rest ++ Mangle.deferred opts));
      [|by apply options_kept|done].
    rewrite body_of_stable by (done || apply options_deferred).
    by rewrite kept_kept, deferred_kept, app_nil_r.
  - apply Hpass. intros t'. rewrite find_positional_options by done.
    simpl. rewrite Ht. simpl. by intros [= <-].
Qed.

Lemma mangle_idempotent_witness :
  Mangle.mangle_args_for_default_framework Demo.reg
    (Mangle.mangle_args_for_default_framework Demo.reg ["-r"; "cat"; "-v"; "/p"])
  = Mangle.mangle_args_for_default_framework Demo.reg ["-r"; "cat"; "-v"; "/p"].
Proof.
  apply (mangle_idempotent Demo.reg ["-r"; "cat"; "-v"; "/p"]).
  exact demo_registry_ok.
Defined.

(** X4: at every point of the scan the category name in hand is a token
    already read and a key of the registry, so that the lookups
    [BaseCategory.categories[category_name]] cannot miss. *)
Theorem scan_category_is_key (reg : registry) (args : list string) (c : string) :
  Mangle.category_name (fold_left (Mangle.step reg) args Mangle.init) = Some c ->
  c ∈ args /\ is_Some (reg !! c).
Proof.
  intros Hc.
  pose proof (scanned_fold reg args Mangle.init [] (scanned_init reg)) as [_ Hk].
  exact (Hk c Hc).
Qed.

Lemma scan_category_is_key_witness :
  "cat" ∈ ["-v"; "cat"; "x"] /\ is_Some (Demo.reg !! "cat").
Proof.
  apply (scan_category_is_key Demo.reg ["-v"; "cat"; "x"] "cat").
  vm_compute. reflexivity.
Defined.

(** * More on the version comparator *)

Section ComparatorOrder.

Import Version.

Lemma compare_parts_nil_l p : compare_parts [] p = false.
Proof. unfold compare_parts. simpl. by destruct p. Qed.

Lemma compare_parts_nil_r x p : compare_parts (x :: p) [] = true.
Proof. reflexivity. Qed.

Lemma compare_parts_cons x y p1 p2 :
  compare_parts (x :: p1) (y :: p2)
  = if (x >? y)%Z then true
    else if (x <? y)%Z then false else compare_parts p1 p2.
Proof.
  unfold compare_parts. simpl.
  destruct (x >? y)%Z; [reflexivity|]. destruct (x <? y)%Z; reflexivity.
Qed.

Lemma compare_parts_asym p1 : forall p2,
  compare_parts p1 p2 = true -> compare_parts p2 p1 = false.
Proof.
  induction p1 as [|x p1 IH]; intros [|y p2]; try done.
  rewrite !compare_parts_cons, !Z.gtb_ltb.
  destruct (Z.ltb_spec y x), (Z.ltb_spec x y); try done; try lia. apply IH.
Qed.

Lemma compare_parts_trans p1 : forall p2 p3,
  compare_parts p1 p2 = true -> compare_parts p2 p3 = true ->
  compare_parts p1 p3 = true.
Proof.
  induction p1 as [|x p1 IH]; intros [|y p2] [|z p3]; try done.
  rewrite !compare_parts_cons, !Z.gtb_ltb.
  destruct (Z.ltb_spec y x), (Z.ltb_spec x y), (Z.ltb_spec z y),
    (Z.ltb_spec y z), (Z.ltb_spec z x), (Z.ltb_spec x z);
    try done; try lia. apply IH.
Qed.

Lemma compare_parts_total p1 : forall p2,
  compare_parts p1 p2 = false -> compare_parts p2 p1 = false -> p1 = p2.
Proof.
  induction p1 as [|x p1 IH]; intros [|y p2]; try done.
  rewrite !compare_parts_cons, !Z.gtb_ltb.
  destruct (Z.ltb_spec y x), (Z.ltb_spec x y); try done; try lia.
  intros H1 H2. assert (x = y) as -> by lia. f_equal. by apply IH.
Qed.

Lemma int_raises_value_error s :
  (exists n, int s = Ok n) \/ (exists msg, int s = Raise (ValueError msg)).
Proof.
  unfold int. destruct (match strip _ with [] => _ | _ => _ end); eauto.
Qed.

Lemma parts_raises_value_error segs :
  (exists p, mapM_result int segs = Ok p)
  \/ (exists msg, mapM_result int segs = Raise (ValueError msg)).
Proof.
  induction segs as [|seg segs IH]; simpl; [by left; eexists|].
  destruct (int_raises_value_error seg) as [[n ->]|[msg ->]]; simpl; [|eauto].
  destruct IH as [[p ->]|[msg ->]]; simpl; eauto.
Qed.

Lemma parts_empty_segment segs :
  "" ∈ segs -> exists msg, mapM_result int segs = Raise (ValueError msg).
Proof.
  induction segs as [|seg segs IH]; intros Hin.
  - by apply elem_of_nil in Hin.
  - simpl. apply elem_of_cons in Hin as [<-|Hin].
    + eexists. reflexivity.
    + destruct (int_raises_value_error seg) as [[n ->]|[msg ->]]; simpl; [|eauto].
      destruct (IH Hin) as [msg ->]. simpl. eauto.
Qed.

End ComparatorOrder.

(** X5: on version strings that parse, "is higher" is a strict order: no
    version is higher than itself, two versions are never each higher
    than the other, and higher than a version that is higher than a third
    is higher than the third. *)
Theorem comparator_strict_order (v1 v2 v3 : string) (p1 p2 p3 : list Z) :
  Version.parts v1 = Ok p1 -> Version.parts v2 = Ok p2 ->
  Version.parts v3 = Ok p3 ->
  Version.is_first_version_higher (Some v1) (Some v1) = Ok false
  /\ (Version.is_first_version_higher (Some v1) (Some v2) = Ok true ->
      Version.is_first_version_higher (Some v2) (Some v1) = Ok false)
  /\ (Version.is_first_version_higher (Some v1) (Some v2) = Ok true ->
      Version.is_first_version_higher (Some v2) (Some v3) = Ok true ->
      Version.is_first_version_higher (Some v1) (Some v3) = Ok true).
Proof.
  intros H1 H2 H3. unfold Version.is_first_version_higher.
  rewrite H1, H2, H3. simpl. split; [|split].
  - by rewrite compare_parts_equal.
  - intros [= H]. by rewrite (compare_parts_asym _ _ H).
  - intros [= H12] [= H23]. by rewrite (compare_parts_trans _ _ _ H12 H23).
Qed.

Lemma comparator_strict_order_witness :
  Version.is_first_version_higher (Some "1.10") (Some "1.10") = Ok false
  /\ (Version.is_first_version_higher (Some "1.10") (Some "1.9.5") = Ok true ->
      Version.is_first_version_higher (Some "1.9.5") (Some "1.10") = Ok false)
  /\ (Version.is_first_version_higher (Some "1.10") (Some "1.9.5") = Ok true ->
      Version.is_first_version_higher (Some "1.9.5") (Some "1.9") = Ok true ->
      Version.is_first_version_higher (Some "1.10") (Some "1.9") = Ok true).
Proof.
  apply (comparator_strict_order "1.10" "1.9.5" "1.9" [1; 10]%Z [1; 9; 5]%Z [1; 9]%Z);
    vm_compute; reflexivity.
Defined.

(** X6: two version strings that parse and of which neither is higher
    than the other have the same integer segments. *)
Theorem comparator_total (v1 v2 : string) (p1 p2 : list Z) :
  Version.parts v1 = Ok p1 -> Version.parts v2 = Ok p2 ->
  Version.is_first_version_higher (Some v1) (Some v2) = Ok false ->
  Version.is_first_version_higher (Some v2) (Some v1) = Ok false ->
  p1 = p2.
Proof.
  intros H1 H2. unfold Version.is_first_version_higher. rewrite H1, H2. simpl.
  intros [= H12] [= H21]. by apply compare_parts_total.
Qed.

Lemma comparator_total_witness : [1; 1]%Z = [1; 1]%Z.
Proof.
  apply (comparator_total "1.01" "1.1" [1; 1]%Z [1; 1]%Z); vm_compute; reflexivity.
Defined.

(** X7: when a version string has an empty segment (it is empty, starts or
    ends with a dot, or has two dots in a row) the comparison of two
    version strings raises [ValueError]; so it does, more generally, when
    either string fails to parse. *)
Theorem empty_segment_raises (v1 v2 : string) :
  "" ∈ Version.split_dot v1 \/ "" ∈ Version.split_dot v2 ->
  exists msg,
    Version.is_first_version_higher (Some v1) (Some v2) = Raise (ValueError msg).
Proof.
  intros H. unfold Version.is_first_version_higher, Version.parts.
  destruct H as [H|H].
  - destruct (parts_empty_segment _ H) as [msg ->]. simpl. eauto.
  - destruct (parts_raises_value_error (Version.split_dot v1)) as [[p1 ->]|[msg ->]];
      simpl; [|eauto].
    destruct (parts_empty_segment _ H) as [msg ->]. simpl. eauto.
Qed.

Lemma empty_segment_raises_witness :
  exists msg,
    Version.is_first_version_higher (Some "1.2") (Some "1.") = Raise (ValueError msg).
Proof.
  apply (empty_segment_raises "1.2" "1."). right.
  apply list_elem_of_In. simpl. auto.
Defined.

(** * More on the renderer *)

Section Prompting.

Import Display Prompt.

(** A request that asks for an answer runs the prompt loop; what it shows
    and reads are no log entries and no calls of [quit]. *)
Lemma display_prompt_loop c cb :
  callback_of c = Some cb ->
  exists shown read,
    (forall stdin, _display c stdin = prompt_loop shown read cb stdin)
    /\ errors_logged shown = [] /\ answers_read shown = []
    /\ exit_status shown = None
    /\ (forall a, errors_logged [read a] = [] /\ answers_read [read a] = [a]
                  /\ exit_status [read a] = None).
Proof.
  destruct c; simpl; intros [= <-].
  - exists [], (Rlinput content0 default_input). by repeat split.
  - exists [Print content0], (Input input). by repeat split.
  - exists [], (Input prompt). by repeat split.
Qed.

Lemma display_turns c cb :
  callback_of c = Some cb ->
  forall stdin, _display c stdin = prompt_loop (shown_of c) (read_of c) cb stdin.
Proof. destruct c; simpl; intros [= <-]; reflexivity. Qed.

(** Every refused answer costs one full turn: the request is shown again
    before the next read. *)
Lemma prompt_loop_refused_events shown read cb bad msgs tail :
  refused cb bad msgs ->
  events (prompt_loop shown read cb (bad ++ tail))
  = concat (zip_with (fun a m => shown ++ [read a; LogError m]) bad msgs)
    ++ events (prompt_loop shown read cb tail).
Proof.
  induction 1 as [|a msg bad msgs Ha _ IH]; simpl; [done|].
  rewrite Ha. unfold prepend; simpl. rewrite IH.
  by rewrite <- !app_assoc.
Qed.

Lemma exit_status_app evs1 evs2 :
  exit_status evs1 = None -> exit_status (evs1 ++ evs2) = exit_status evs2.
Proof.
  induction evs1 as [|ev evs1 IH]; simpl; [done|].
  destruct ev; try done.
Qed.

Section Loop.

Variables (shown : list event) (read : string -> event)
          (cb : string -> result unit).
Hypothesis shown_quiet :
  errors_logged shown = [] /\ answers_read shown = [] /\ exit_status shown = None.
Hypothesis read_quiet :
  forall a, errors_logged [read a] = [] /\ answers_read [read a] = [a]
            /\ exit_status [read a] = None.

Lemma step_events a msg rest :
  errors_logged ((shown ++ [read a; LogError msg]) ++ rest) = msg :: errors_logged rest
  /\ answers_read ((shown ++ [read a; LogError msg]) ++ rest) = a :: answers_read rest
  /\ exit_status ((shown ++ [read a; LogError msg]) ++ rest) = exit_status rest.
Proof.
  destruct shown_quiet as (Hs1 & Hs2 & Hs3).
  destruct (read_quiet a) as (Hr1 & Hr2 & Hr3).
  replace ((shown ++ [read a; LogError msg]) ++ rest)
    with (shown ++ [read a] ++ LogError msg :: rest)
    by (by rewrite <- !app_assoc).
  split; [|split].
  - unfold errors_logged in *. rewrite (omap_app _ shown), Hs1.
    rewrite (omap_app _ [read a]), Hr1. reflexivity.
  - unfold answers_read in *. rewrite (omap_app _ shown), Hs2.
    rewrite (omap_app _ [read a]), Hr2. reflexivity.
  - by rewrite !exit_status_app.
Qed.

(** Refused answers are read one by one, each error is logged, and the
    loop goes on with what is left of the input. *)
Lemma prompt_loop_refused bad msgs tail :
  refused cb bad msgs ->
  let o := prompt_loop shown read cb (bad ++ tail) in
  let o' := prompt_loop shown read cb tail in
  errors_logged (events o) = msgs ++ errors_logged (events o')
  /\ answers_read (events o) = bad ++ answers_read (events o')
  /\ exit_status (events o) = exit_status (events o')
  /\ stdin_left o = stdin_left o' /\ value o = value o'.
Proof.
  induction 1 as [|a msg bad msgs Ha _ IH]; simpl; [done|].
  rewrite Ha. unfold prepend; simpl.
  destruct (step_events a msg
              (events (prompt_loop shown read cb (bad ++ tail)))) as (-> & -> & ->).
  destruct IH as (-> & -> & -> & -> & ->). done.
Qed.

Lemma prompt_loop_end a rest :
  (forall msg, cb a <> Raise (InputError msg)) ->
  let o := prompt_loop shown read cb (a :: rest) in
  errors_logged (events o) = [] /\ answers_read (events o) = [a]
  /\ exit_status (events o) = None /\ stdin_left o = rest
  /\ value o = match cb a with Ok _ => Ok ReturnNone | Raise e => Raise e end.
Proof.
  intros Hcb. simpl.
  destruct shown_quiet as (Hs1 & Hs2 & Hs3).
  destruct (read_quiet a) as (Hr1 & Hr2 & Hr3).
  assert (errors_logged (shown ++ [read a]) = []
          /\ answers_read (shown ++ [read a]) = [a]
          /\ exit_status (shown ++ [read a]) = None) as (H1 & H2 & H3).
  { unfold errors_logged, answers_read in *.
    rewrite !omap_app, Hs1, Hs2, Hr1, Hr2. by rewrite exit_status_app. }
  destruct (cb a) as [[]|e] eqn:E; simpl; [done|].
  destruct e; try done. by destruct (Hcb msg).
Qed.

Lemma prompt_loop_eof :
  let o := prompt_loop shown read cb [] in
  errors_logged (events o) = [] /\ answers_read (events o) = []
  /\ exit_status (events o) = None /\ stdin_left o = []
  /\ value o = Raise EOFError.
Proof. simpl. by destruct shown_quiet as (-> & -> & ->). Qed.

End Loop.

End Prompting.

(** X8: a request that asks for an answer is displayed again for every
    answer its callback refuses with [InputError], each refusal is logged,
    and the first answer the callback takes ends the display. The events
    are, in order, one turn for every refused answer (the licence text
    printed if the request is a licence, the read with the prompt of the
    request, the error logged) and one last turn for the answer taken
    (the text again, the read), and nothing else. So exactly the refused
    answers and that one are read, the rest of the input is left, and the
    main loop is not asked to quit. *)
Theorem retry_until_accepted
    (c : Display.content) (cb : string -> result unit)
    (bad msgs : list string) (good : string) (rest : list string) :
  Prompt.callback_of c = Some cb ->
  Prompt.refused cb bad msgs -> cb good = Ok tt ->
  Display.events (Display._display c (bad ++ good :: rest))
  = concat (zip_with (Prompt.refusal c) bad msgs) ++ Prompt.acceptance c good
  /\ Display.value (Display._display c (bad ++ good :: rest)) = Ok Display.ReturnNone
  /\ Display.stdin_left (Display._display c (bad ++ good :: rest)) = rest
  /\ Prompt.answers_read (Display.events (Display._display c (bad ++ good :: rest)))
     = bad ++ [good]
  /\ Prompt.errors_logged (Display.events (Display._display c (bad ++ good :: rest)))
     = msgs
  /\ exit_status (Display.events (Display._display c (bad ++ good :: rest))) = None.
Proof.
  intros Hc Hbad Hgood. split.
  { rewrite (display_turns c cb Hc).
    rewrite (prompt_loop_refused_events _ _ cb bad msgs (good :: rest) Hbad).
    simpl. by rewrite Hgood. }
  destruct (display_prompt_loop c cb Hc) as (shown & read & -> & Hs1 & Hs2 & Hs3 & Hr).
  destruct (prompt_loop_refused shown read cb (conj Hs1 (conj Hs2 Hs3)) Hr
              bad msgs (good :: rest) Hbad) as (-> & -> & -> & -> & ->).
  destruct (prompt_loop_end shown read cb (conj Hs1 (conj Hs2 Hs3)) Hr good rest)
    as (-> & -> & -> & -> & ->).
  { intros msg. rewrite Hgood. discriminate. }
  rewrite Hgood, app_nil_r. done.
Qed.

Lemma retry_until_accepted_witness :
  Display.events
    (Display._display (Display.LicenseAgreement "Terms" "[a/N]" DemoDisplay.choose)
       (["x"; "n"] ++ "y" :: ["z"]))
  = [ Print "Terms"; Input "[a/N]" "x"; LogError "Invalid answer";
      Print "Terms"; Input "[a/N]" "n"; LogError "Invalid answer";
      Print "Terms"; Input "[a/N]" "y" ]
  /\ Display.value
       (Display._display (Display.LicenseAgreement "Terms" "[a/N]" DemoDisplay.choose)
          (["x"; "n"] ++ "y" :: ["z"]))
     = Ok Display.ReturnNone
  /\ Display.stdin_left
       (Display._display (Display.LicenseAgreement "Terms" "[a/N]" DemoDisplay.choose)
          (["x"; "n"] ++ "y" :: ["z"]))
     = ["z"]
  /\ Prompt.answers_read
       (Display.events
          (Display._display (Display.LicenseAgreement "Terms" "[a/N]" DemoDisplay.choose)
             (["x"; "n"] ++ "y" :: ["z"])))
     = ["x"; "n"] ++ ["y"]
  /\ Prompt.errors_logged
       (Display.events
          (Display._display (Display.LicenseAgreement "Terms" "[a/N]" DemoDisplay.choose)
             (["x"; "n"] ++ "y" :: ["z"])))
     = ["Invalid answer"; "Invalid answer"]
  /\ exit_status
       (Display.events
          (Display._display (Display.LicenseAgreement "Terms" "[a/N]" DemoDisplay.choose)
             (["x"; "n"] ++ "y" :: ["z"])))
     = None.
Proof.
  apply (retry_until_accepted
           (Display.LicenseAgreement "Terms" "[a/N]" DemoDisplay.choose)
           DemoDisplay.choose ["x"; "n"] ["Invalid answer"; "Invalid answer"] "y" ["z"]).
  - reflexivity.
  - repeat constructor.
  - reflexivity.
Defined.

(** X9: when the callback refuses every answer the input holds, the
    display ends with [EOFError] once the input is used up, after logging
    every refusal. *)
Theorem all_refused_ends_in_eof
    (c : Display.content) (cb : string -> result unit) (stdin msgs : list string) :
  Prompt.callback_of c = Some cb -> Prompt.refused cb stdin msgs ->
  Display.value (Display._display c stdin) = Raise EOFError
  /\ Display.stdin_left (Display._display c stdin) = []
  /\ Prompt.errors_logged (Display.events (Display._display c stdin)) = msgs.
Proof.
  intros Hc Hbad.
  destruct (display_prompt_loop c cb Hc) as (shown & read & -> & Hs1 & Hs2 & Hs3 & Hr).
  destruct (prompt_loop_refused shown read cb (conj Hs1 (conj Hs2 Hs3)) Hr
              stdin msgs [] Hbad) as (He & _ & _ & Hl & Hv).
  rewrite app_nil_r in *. rewrite He, Hl, Hv.
  destruct (prompt_loop_eof shown read cb (conj Hs1 (conj Hs2 Hs3)))
    as (-> & _ & _ & -> & ->).
  by rewrite app_nil_r.
Qed.

Lemma all_refused_ends_in_eof_witness :
  Display.value
    (Display._display (Display.TextWithChoices "Choice?" DemoDisplay.choose) ["x"])
  = Raise EOFError
  /\ Display.stdin_left
       (Display._display (Display.TextWithChoices "Choice?" DemoDisplay.choose) ["x"])
     = []
  /\ Prompt.errors_logged
       (Display.events
          (Display._display (Display.TextWithChoices "Choice?" DemoDisplay.choose) ["x"]))
     = ["Invalid answer"].
Proof.
  apply (all_refused_ends_in_eof
           (Display.TextWithChoices "Choice?" DemoDisplay.choose)
           DemoDisplay.choose ["x"] ["Invalid answer"]).
  - reflexivity.
  - repeat constructor.
Defined.

(** X10: an exception of the callback that is no [InputError] is not
    retried: it ends the display, after the refused answers before it, and
    is not logged. *)
Theorem other_exception_propagates
    (c : Display.content) (cb : string -> result unit)
    (bad msgs : list string) (a : string) (e : exn) (rest : list string) :
  Prompt.callback_of c = Some cb ->
  Prompt.refused cb bad msgs ->
  cb a = Raise e -> (forall msg, e <> InputError msg) ->
  Display.value (Display._display c (bad ++ a :: rest)) = Raise e
  /\ Display.stdin_left (Display._display c (bad ++ a :: rest)) = rest
  /\ Prompt.errors_logged (Display.events (Display._display c (bad ++ a :: rest)))
     = msgs.
Proof.
  intros Hc Hbad Ha He.
  destruct (display_prompt_loop c cb Hc) as (shown & read & -> & Hs1 & Hs2 & Hs3 & Hr).
  destruct (prompt_loop_refused shown read cb (conj Hs1 (conj Hs2 Hs3)) Hr
              bad msgs (a :: rest) Hbad) as (-> & _ & _ & -> & ->).
  destruct (prompt_loop_end shown read cb (conj Hs1 (conj Hs2 Hs3)) Hr a rest)
    as (-> & _ & _ & -> & ->).
  { intros msg. rewrite Ha. intros [= H]. by destruct (He msg). }
  by rewrite Ha, app_nil_r.
Qed.

Lemma other_exception_propagates_witness :
  Display.value
    (Display._display
       (Display.InputText "Path:" "/opt" (fun _ => Raise (KeyError "path")))
       ([] ++ "x" :: ["y"]))
  = Raise (KeyError "path")
  /\ Display.stdin_left
       (Display._display
          (Display.InputText "Path:" "/opt" (fun _ => Raise (KeyError "path")))
          ([] ++ "x" :: ["y"]))
     = ["y"]
  /\ Prompt.errors_logged
       (Display.events
          (Display._display
             (Display.InputText "Path:" "/opt" (fun _ => Raise (KeyError "path")))
             ([] ++ "x" :: ["y"])))
     = [].
Proof.
  apply (other_exception_propagates
           (Display.InputText "Path:" "/opt" (fun _ => Raise (KeyError "path")))
           (fun _ => Raise (KeyError "path")) [] [] "x" (KeyError "path") ["y"]).
  - reflexivity.
  - constructor.
  - reflexivity.
  - discriminate.
Defined.

Section NeverQuits.

Import Display Prompt.

Lemma prompt_loop_never_quits shown read cb stdin :
  exit_status shown = None -> (forall a, exit_status [read a] = None) ->
  exit_status (events (prompt_loop shown read cb stdin)) = None.
Proof.
  intros Hs Hr. induction stdin as [|a stdin IH]; simpl; [done|].
  assert (exit_status (shown ++ [read a]) = None) as Hsr
    by (by rewrite exit_status_app).
  destruct (cb a) as [u|e]; simpl; [done|].
  destruct e; simpl; try done.
  replace ((shown ++ [read a; LogError msg]) ++ events (prompt_loop shown read cb stdin))
    with (shown ++ [read a] ++ LogError msg :: events (prompt_loop shown read cb stdin))
    by (by rewrite <- !app_assoc).
  by rewrite !exit_status_app.
Qed.

End NeverQuits.

(** X11: for a request of one of the five known kinds the renderer never
    asks the main loop to quit, whatever the input holds and whatever the
    callback answers. *)
Theorem known_kind_never_quits (c : Display.content) (stdin : list string) :
  Display.handled c = true ->
  exit_status (Display.events (Display._display c stdin)) = None.
Proof.
  destruct c; simpl; try discriminate; intros _.
  - by apply prompt_loop_never_quits.
  - by apply prompt_loop_never_quits.
  - by apply prompt_loop_never_quits.
  - reflexivity.
  - destruct bar, next; reflexivity.
Qed.

Lemma known_kind_never_quits_witness :
  exit_status
    (Display.events
       (Display._display (Display.UnknownProgress false Display.Exhausted) ["x"]))
  = None.
Proof.
  apply (known_kind_never_quits (Display.UnknownProgress false Display.Exhausted) ["x"]).
  reflexivity.
Defined.

(** A progress request takes nothing from the input and always returns
    [False]; the next pulse is scheduled exactly when this pulse went
    through, and a progress bar is made only when the request has none. *)
Lemma progress_pulse (bar : bool) (next : Display.pulse) (stdin : list string) :
  Display.value (Display._display (Display.UnknownProgress bar next) stdin)
  = Ok Display.ReturnFalse
  /\ Display.stdin_left (Display._display (Display.UnknownProgress bar next) stdin)
     = stdin
  /\ (DelayedDisplay ∈ Display.events
                         (Display._display (Display.UnknownProgress bar next) stdin)
      <-> next = Display.Pulsed)
  /\ (NewProgressBar ∈ Display.events
                         (Display._display (Display.UnknownProgress bar next) stdin)
      <-> bar = false).
Proof.
  destruct bar, next; simpl; repeat split; try done;
    try (intros H; repeat (apply elem_of_cons in H as [H|H]; try discriminate H);
         by apply elem_of_nil in H);
    try (intros _; apply list_elem_of_In; simpl; auto).
Qed.

(** * More on the update branch *)

Section Sorting.

Import Update.

Lemma insert_by_name_stable n x l :
  List.filter (fun i => framework_name i =? n) (insert_by_name x l)
  = List.filter (fun i => framework_name i =? n) (x :: l).
Proof.
  induction l as [|y l IH]; [reflexivity|].
  simpl insert_by_name.
  destruct (String.leb (framework_name x) (framework_name y)) eqn:E; [reflexivity|].
  simpl in *. rewrite IH.
  destruct (framework_name x =? n) eqn:Ex, (framework_name y =? n) eqn:Ey; try done.
  apply String.eqb_eq in Ex, Ey. rewrite Ex, Ey in E.
  assert (String.le n n) as H by reflexivity.
  unfold String.le in H. rewrite E in H. done.
Qed.

Lemma sorted_by_name_stable n l :
  List.filter (fun i => framework_name i =? n) (sorted_by_name l)
  = List.filter (fun i => framework_name i =? n) l.
Proof.
  induction l as [|x l IH]; [reflexivity|].
  simpl sorted_by_name. rewrite insert_by_name_stable. simpl. by rewrite IH.
Qed.

End Sorting.

(** X12: the sort of the installed frameworks gives the same elements,
    in ascending order of their names (by code points), and elements of
    the same name stay in the order they had. *)
Theorem sorted_by_name_correct (l : list Update.installed) :
  StronglySorted String.le (Update.framework_name <$> Update.sorted_by_name l)
  /\ Update.sorted_by_name l ≡ₚ l
  /\ forall n,
       List.filter (fun i => Update.framework_name i =? n) (Update.sorted_by_name l)
       = List.filter (fun i => Update.framework_name i =? n) l.
Proof.
  split; [apply sorted_by_name_sorted|]. split; [apply sorted_by_name_perm|].
  intros n. apply sorted_by_name_stable.
Qed.

(** X13: the list the update branch works on holds exactly the frameworks
    that [list_frameworks()] reports as installed, each with its name, its
    install path and the name of its category. *)
Theorem installed_frameworks_content
    (frameworks : list Update.category_info) (i : Update.installed) :
  i ∈ Update.installed_frameworks frameworks
  <-> exists category framework,
        category ∈ frameworks /\ framework ∈ Update.ci_frameworks category
        /\ Update.fi_is_installed framework = true
        /\ i = {| Update.framework_name := Update.fi_framework_name framework;
                  Update.install_path := Update.fi_install_path framework;
                  Update.category_name := Update.ci_category_name category |}.
Proof.
  unfold Update.installed_frameworks. rewrite sorted_by_name_perm.
  rewrite list_elem_of_bind. split.
  - intros (category & Hi & Hc). apply list_elem_of_bind in Hi as (fw & Hi & Hfw).
    apply list_elem_of_In, List.filter_In in Hfw as [Hfw Hinst].
    apply list_elem_of_singleton in Hi.
    exists category, fw. repeat split; try done. by apply list_elem_of_In.
  - intros (category & fw & Hc & Hfw & Hinst & ->).
    exists category. split; [|done]. apply list_elem_of_bind.
    exists fw. split; [by apply list_elem_of_singleton|].
    apply list_elem_of_In, List.filter_In. split; [by apply list_elem_of_In|done].
Qed.

Section Checking.

Import Update UpdateFacts.

Variable reg : registry.

Lemma check_one_excluded acc i :
  category_name i = "java" \/ framework_name i = "firefox-dev" ->
  check_one reg acc i = Run [] (Ok acc).
Proof.
  intros H. unfold check_one.
  assert ((category_name i =? "java") || (framework_name i =? "firefox-dev") = true)
    as ->; [|reflexivity].
  apply orb_true_iff. destruct H as [H|H]; [left|right]; by apply String.eqb_eq.
Qed.

Lemma check_one_eligible acc i fw :
  eligible reg i fw ->
  check_one reg acc i
  = Run [FetchLatest (category_name i) (framework_name i)]
      (match outdated_check (get_latest_version fw)
               (get_current_user_version fw (install_path i)) with
       | Ok true => Ok (acc ++ [entry_of i fw])
       | Ok false => Ok acc
       | Raise e => Raise e
       end).
Proof.
  intros (Hj & Hf & cat & Hcat & Hfw & Hsup). unfold check_one.
  apply String.eqb_neq in Hj, Hf. rewrite Hj, Hf, Hcat, Hfw, Hsup. simpl.
  unfold mbind, run_bind, lift, emit; cbn [trace ended].
  destruct (outdated_check _ _) as [[]|e]; reflexivity.
Qed.

(** What an iteration does is decided by whether its framework is one to
    look at. *)
Lemma check_one_cases acc i :
  (exists fw, eligible reg i fw) \/ fetched (trace (check_one reg acc i)) = [].
Proof.
  unfold check_one.
  destruct (category_name i =? "java") eqn:Hj; [by right|].
  destruct (framework_name i =? "firefox-dev") eqn:Hf; [by right|]. simpl.
  destruct (reg !! category_name i) as [cat|] eqn:Hcat; [|by right].
  destruct (frameworks cat !! framework_name i) as [fw|] eqn:Hfw; [|by right].
  destruct (supports_update fw) eqn:Hsup; [|by right].
  left. exists fw. apply String.eqb_neq in Hj, Hf. repeat split; try done.
  by exists cat.
Qed.

Lemma check_all_app l1 : forall acc l2,
  check_all reg acc (l1 ++ l2)
  = check_all reg acc l1 ≫= fun mid => check_all reg mid l2.
Proof.
  induction l1 as [|i l1 IH]; intros acc l2; simpl.
  - unfold mbind, run_bind, mret, run_ret. simpl. by destruct (check_all reg acc l2).
  - unfold mbind, run_bind. destruct (check_one reg acc i) as [tr1 [mid|e]]; simpl;
      [|reflexivity].
    rewrite IH. unfold mbind, run_bind.
    destruct (check_all reg mid l1) as [tr2 [mid2|e]]; simpl.
    + by rewrite app_assoc.
    + reflexivity.
Qed.

Lemma fetched_app evs1 evs2 : fetched (evs1 ++ evs2) = fetched evs1 ++ fetched evs2.
Proof. apply omap_app. Qed.

Lemma check_all_fetched installed : forall acc c f,
  (c, f) ∈ fetched (trace (check_all reg acc installed)) ->
  exists i fw, i ∈ installed /\ category_name i = c /\ framework_name i = f
               /\ eligible reg i fw.
Proof.
  induction installed as [|i installed IH]; intros acc c f; simpl.
  - intros H. by apply elem_of_nil in H.
  - assert (forall mid,
      (c, f) ∈ fetched (trace (check_all reg mid installed)) ->
      exists i0 fw0, i0 ∈ i :: installed /\ category_name i0 = c
                     /\ framework_name i0 = f /\ eligible reg i0 fw0) as IH'.
    { intros mid H. apply IH in H as (i0 & fw0 & Hin & Hrest).
      exists i0, fw0. split; [by right|done]. }
    unfold mbind, run_bind.
    destruct (check_one_cases acc i) as [[fw Hel]|Hquiet].
    + assert (exists r, check_one reg acc i
                = Run [FetchLatest (category_name i) (framework_name i)] r)
        as [r ->] by (rewrite (check_one_eligible acc i fw Hel); eauto).
      assert (forall rest, (c, f) ∈ (category_name i, framework_name i) :: rest ->
                (c, f) ∈ rest \/ (category_name i = c /\ framework_name i = f))
        as Hhead.
      { intros rest H. apply elem_of_cons in H as [[= -> ->]|H]; auto. }
      destruct r as [mid|e]; cbn [trace ended]; rewrite ?fetched_app; simpl;
        intros H; apply Hhead in H as [H|[Hc Hf]].
      * by apply IH' in H.
      * exists i, fw. split; [by left|done].
      * by apply elem_of_nil in H.
      * exists i, fw. split; [by left|done].
    + destruct (check_one reg acc i) as [tr1 [mid|e]]; cbn [trace ended] in *.
      * rewrite fetched_app, Hquiet. simpl. apply IH'.
      * rewrite Hquiet. intros H. by apply elem_of_nil in H.
Qed.

Lemma check_all_keeps installed : forall acc tr out e,
  check_all reg acc installed = Run tr (Ok out) -> e ∈ acc -> e ∈ out.
Proof.
  intros acc tr out e H He. apply check_all_adds in H as (added & -> & _).
  apply elem_of_app. by left.
Qed.

Lemma check_all_complete installed : forall acc tr out i fw,
  check_all reg acc installed = Run tr (Ok out) ->
  i ∈ installed -> eligible reg i fw ->
  outdated_check (get_latest_version fw)
    (get_current_user_version fw (install_path i)) = Ok true ->
  entry_of i fw ∈ out.
Proof.
  induction installed as [|i0 installed IH]; intros acc tr out i fw H Hin Hel Hchk.
  - by apply elem_of_nil in Hin.
  - simpl in H. apply bind_ok in H as (tr1 & mid & tr2 & H1 & H2 & _).
    apply elem_of_cons in Hin as [<-|Hin].
    + rewrite (check_one_eligible acc i fw Hel), Hchk in H1.
      injection H1 as _ <-.
      eapply check_all_keeps; [exact H2|]. apply elem_of_app. right. by left.
    + eapply IH; eauto.
Qed.

End Checking.

(** X14: a download of a latest version page is only ever started for an
    installed framework that is outside the category [java], is not
    [firefox-dev], is held by the registry and supports updates. *)
Theorem fetch_only_when_eligible
    (reg : registry) (acc : list Update.outdated)
    (installed : list Update.installed) (c f : string) :
  (c, f) ∈ UpdateFacts.fetched (Update.trace (Update.check_all reg acc installed)) ->
  exists i fw,
    i ∈ installed /\ Update.category_name i = c /\ Update.framework_name i = f
    /\ UpdateFacts.eligible reg i fw.
Proof. apply check_all_fetched. Qed.

Lemma fetch_only_when_eligible_witness :
  exists i fw,
    i ∈ Update.installed_frameworks DemoUpdate.listed
    /\ Update.category_name i = "bare" /\ Update.framework_name i = "only"
    /\ UpdateFacts.eligible Demo.reg i fw.
Proof.
  apply (fetch_only_when_eligible Demo.reg []
           (Update.installed_frameworks DemoUpdate.listed) "bare" "only").
  vm_compute. apply list_elem_of_In. simpl. auto.
Defined.

(** X15: when the run over the installed frameworks ends without an
    exception, every installed framework that is looked at, has both its
    versions read and has a latest version higher than the installed one
    is in the list of outdated frameworks. *)
Theorem outdated_is_complete
    (reg : registry) (installed : list Update.installed)
    (tr : list event) (out : list Update.outdated)
    (i : Update.installed) (fw : framework) (user latest : string) :
  Update.check_all reg [] installed = Update.Run tr (Ok out) ->
  i ∈ installed -> UpdateFacts.eligible reg i fw ->
  get_current_user_version fw (Update.install_path i) = Some user ->
  get_latest_version fw = Some latest ->
  Version.is_first_version_higher (Some latest) (Some user) = Ok true ->
  UpdateFacts.entry_of i fw ∈ out.
Proof.
  intros H Hin Hel Hu Hl Hhigher.
  eapply check_all_complete; eauto.
  unfold Update.outdated_check. by rewrite Hu, Hl.
Qed.

Lemma demo_fw_eligible :
  UpdateFacts.eligible Demo.reg
    {| Update.framework_name := "fw"; Update.install_path := "/opt/fw";
       Update.category_name := "cat" |} Demo.fw.
Proof.
  split; [discriminate|]. split; [discriminate|].
  exists Demo.cat. repeat split; vm_compute; reflexivity.
Defined.

Lemma outdated_is_complete_witness :
  UpdateFacts.entry_of
    {| Update.framework_name := "fw"; Update.install_path := "/opt/fw";
       Update.category_name := "cat" |} Demo.fw
  ∈ [DemoUpdate.fw_entry; DemoUpdate.only_entry].
Proof.
  apply (outdated_is_complete Demo.reg
           (Update.installed_frameworks DemoUpdate.listed) DemoUpdate.fetches
           [DemoUpdate.fw_entry; DemoUpdate.only_entry]
           {| Update.framework_name := "fw"; Update.install_path := "/opt/fw";
              Update.category_name := "cat" |} Demo.fw "1.9" "1.10").
  - vm_compute. reflexivity.
  - vm_compute. apply list_elem_of_In. simpl. auto.
  - exact demo_fw_eligible.
  - reflexivity.
  - reflexivity.
  - vm_compute. reflexivity.
Defined.

(** X16: a version that does not parse aborts the whole update: when the
    comparison for an installed framework raises, the update branch ends
    with that exception right after the download for this framework;
    nothing is reported, no command is run, and the frameworks after it
    are not looked at. *)
Theorem malformed_version_aborts_update
    (reg : registry) (parse_args : list string -> result Parsed.namespace)
    (frameworks : list Update.category_info)
    (term : option string)
    (pre : list Update.installed) (i : Update.installed)
    (post : list Update.installed)
    (tr : list event) (mid : list Update.outdated)
    (fw : framework) (user latest : string) (e : exn) :
  Update.installed_frameworks frameworks = pre ++ i :: post ->
  Update.check_all reg [] pre = Update.Run tr (Ok mid) ->
  UpdateFacts.eligible reg i fw ->
  get_current_user_version fw (Update.install_path i) = Some user ->
  get_latest_version fw = Some latest ->
  Version.is_first_version_higher (Some latest) (Some user) = Raise e ->
  Update.update reg parse_args frameworks term
  = Update.Run
      (tr ++ [FetchLatest (Update.category_name i) (Update.framework_name i)])
      (Raise e).
Proof.
  intros Hsplit Hpre Hel Hu Hl Hraise.
  assert (Update.check_one reg mid i
          = Update.Run
              [FetchLatest (Update.category_name i) (Update.framework_name i)]
              (Raise e)) as Hone.
  { rewrite (check_one_eligible reg mid i fw Hel).
    unfold Update.outdated_check. by rewrite Hu, Hl, Hraise. }
  assert (Update.check_all reg [] (Update.installed_frameworks frameworks)
          = Update.Run
              (tr ++ [FetchLatest (Update.category_name i) (Update.framework_name i)])
              (Raise e)) as Hall.
  { rewrite Hsplit, check_all_app, Hpre.
    unfold mbind, Update.run_bind. cbn [Update.trace Update.ended Update.check_all].
    unfold mbind, Update.run_bind. by rewrite Hone. }
  unfold Update.update. by rewrite Hall.
Qed.

Lemma malformed_version_aborts_update_witness :
  Update.update DemoBroken.reg DemoUpdate.parse_args DemoBroken.listed (Some "xterm")
  = Update.Run
      ([FetchLatest "cat" "alpha"] ++
       [FetchLatest (Update.category_name (DemoBroken.installed_of "beta"))
          (Update.framework_name (DemoBroken.installed_of "beta"))])
      (Raise (ValueError "invalid literal for int() with base 10: 'x'")).
Proof.
  apply (malformed_version_aborts_update DemoBroken.reg DemoUpdate.parse_args
           DemoBroken.listed (Some "xterm") [DemoBroken.installed_of "alpha"]
           (DemoBroken.installed_of "beta") [DemoBroken.installed_of "gamma"]
           [FetchLatest "cat" "alpha"]
           [UpdateFacts.entry_of (DemoBroken.installed_of "alpha") DemoBroken.alpha]
           DemoBroken.beta "1.0" "2.x").
  - vm_compute. reflexivity.
  - vm_compute. reflexivity.
  - split; [discriminate|]. split; [discriminate|].
    exists DemoBroken.cat. repeat split; vm_compute; reflexivity.
  - reflexivity.
  - reflexivity.
  - vm_compute. reflexivity.
Defined.

Lemma update_command_count
    (reg : registry) (parse_args : list string -> result Parsed.namespace)
    (frameworks : list Update.category_info)
    (term : option string) :
  (Update.ended (Update.update reg parse_args frameworks term) = Ok tt
   /\ exists c f,
        Update.commands_run
          (Update.trace (Update.update reg parse_args frameworks term))
        = [(c, f)])
  \/ (exists e, Update.ended (Update.update reg parse_args frameworks term) = Raise e
                /\ Update.commands_run
                     (Update.trace (Update.update reg parse_args frameworks term))
                   = []).
Proof.
  pose proof (check_all_quiet reg (Update.installed_frameworks frameworks) []) as Hq.
  destruct (Update.check_all reg [] (Update.installed_frameworks frameworks))
    as [tr [[|o rest]|e]] eqn:H; simpl in Hq.
  - right. rewrite (update_up_to_date reg parse_args frameworks term tr H). simpl.
    exists (SystemExit 0). split; [reflexivity|].
    by rewrite commands_run_app, Hq.
  - destruct (update_outdated reg parse_args frameworks term tr o rest H)
      as (lines & ->).
    destruct (parse_args _) as [args|e]; simpl.
    + left. split; [reflexivity|].
      exists (default "" (Parsed.category args)), (Parsed.framework args).
      by rewrite !commands_run_app, commands_run_prints, Hq.
    + right. exists e. split; [reflexivity|].
      by rewrite !commands_run_app, commands_run_prints, Hq.
  - right. exists e. unfold Update.update. rewrite H. simpl. done.
Qed.

(** X17: whatever is installed and whatever the parser answers, the update
    branch runs at most one install command: it returns normally with
    exactly one command run, or it ends with an exception (the exit with
    status 0 when everything is up to date is one, an exception of the
    parser is another) and has run none. *)
Theorem update_runs_at_most_one_command
    (reg : registry) (parse_args : list string -> result Parsed.namespace)
    (frameworks : list Update.category_info)
    (term : option string) :
  (Update.ended (Update.update reg parse_args frameworks term) = Ok tt
   /\ exists c f,
        Update.commands_run
          (Update.trace (Update.update reg parse_args frameworks term))
        = [(c, f)])
  \/ (exists e, Update.ended (Update.update reg parse_args frameworks term) = Raise e
                /\ Update.commands_run
                     (Update.trace (Update.update reg parse_args frameworks term))
                   = []).
Proof. apply update_command_count. Qed.

Section Report.

Import Update.

Lemma string_length_app s1 s2 :
  String.length (s1 +:+ s2) = String.length s1 + String.length s2.
Proof. induction s1 as [|c s1 IH]; simpl; [reflexivity | by rewrite IH]. Qed.

Lemma spaces_length n : String.length (String.concat "" (replicate n " ")) = n.
Proof.
  induction n as [|n IH]; [reflexivity|].
  destruct n as [|n]; [reflexivity|].
  change (replicate (S (S n)) " ") with (" " :: replicate (S n) " ").
  change (String.concat "" (" " :: replicate (S n) " "))
    with (" " +:+ "" +:+ String.concat "" (replicate (S n) " ")).
  rewrite !string_length_app, IH. reflexivity.
Qed.

(** [ljust] pads up to the width and never cuts. *)
Lemma ljust_length s width :
  String.length (ljust s width) = Nat.max (String.length s) width.
Proof. unfold ljust. rewrite string_length_app, spaces_length. lia. Qed.

Lemma foldl_max_le v rest : v <= foldl Nat.max v rest.
Proof.
  revert v. induction rest as [|x rest IH]; intros v; simpl; [done|].
  etrans; [|apply IH]. lia.
Qed.

Lemma foldl_max_bound v rest x : x ∈ v :: rest -> x <= foldl Nat.max v rest.
Proof.
  revert v. induction rest as [|y rest IH]; intros v Hx.
  - apply list_elem_of_singleton in Hx as ->. done.
  - simpl. apply elem_of_cons in Hx as [->|Hx].
    + etrans; [|apply foldl_max_le]. lia.
    + apply elem_of_cons in Hx as [->|Hx].
      * etrans; [|apply foldl_max_le]. lia.
      * apply IH. by right.
Qed.

Lemma max_of_bound values m x : max_of values = Ok m -> x ∈ values -> x <= m.
Proof.
  destruct values as [|v rest]; [discriminate|]. intros [= <-].
  apply foldl_max_bound.
Qed.

Lemma lengths_of data lengths :
  mapM_result (fun item => len_version (latest_version item)) data = Ok lengths ->
  Forall2 (fun item n => exists l, latest_version item = Some l
                                   /\ n = String.length l) data lengths.
Proof.
  revert lengths. induction data as [|item data IH]; simpl; intros lengths.
  - intros [= <-]. constructor.
  - destruct (latest_version item) as [l|] eqn:Hl; simpl; [|discriminate].
    destruct (mapM_result _ data) as [ls|e]; simpl; [|discriminate].
    intros [= <-]. constructor; [eauto | by apply IH].
Qed.

(** One line of the report: the name and the latest version are padded to
    the two widths. *)
Lemma report_line_columns term mn mv item l :
  latest_version item = Some l ->
  String.length (o_framework_name item) <= mn -> String.length l <= mv ->
  exists name_column version_column user_column,
    report_line term mn mv item
    = Ok (name_column +:+ " | " +:+ "Latest Version: " +:+ version_column
          +:+ " | " +:+ "User Version: " +:+ user_column)
    /\ name_column = ljust (o_framework_name item) mn
    /\ String.length name_column = mn
    /\ String.length version_column
       = String.length (if supports_color term then esc "[32m" else "")
         + String.length (if supports_color term then esc "[m" else "") + mv.
Proof.
  intros Hl Hn Hv. unfold report_line. rewrite Hl. simpl.
  eexists _, _, _. split; [reflexivity|]. split; [reflexivity|].
  rewrite !ljust_length, !string_length_app. split; lia.
Qed.

Lemma print_lines_columns term mn mv data :
  Forall (fun item => exists l, latest_version item = Some l
                                /\ String.length (o_framework_name item) <= mn
                                /\ String.length l <= mv) data ->
  exists lines,
    print_lines term mn mv data = Run (Print <$> lines) (Ok tt)
    /\ Forall2 (fun item line => report_line term mn mv item = Ok line) data lines.
Proof.
  induction 1 as [|item data (l & Hl & Hn & Hv) _ (lines & IH & Hlines)]; simpl.
  - exists []. split; [reflexivity | constructor].
  - destruct (report_line_columns term mn mv item l Hl Hn Hv)
      as (a & b & u & Hline & _).
    rewrite Hline. unfold mbind, run_bind, lift, emit; cbn [trace ended].
    rewrite IH. cbn [trace ended app].
    eexists (_ :: lines). split; [reflexivity|]. by constructor.
Qed.

End Report.

(** X18: the report has one line for each outdated framework, in the
    order of the list, and its columns are aligned: in every line the name
    is padded to the same width, the longest name's, and the latest
    version, with its colour codes when the terminal takes colours, to the
    same width as well, so that the separators stand at the same places. *)
Theorem report_columns_aligned (term : option string) (data : list Update.outdated) :
  data <> [] ->
  Forall (fun item => is_Some (Update.latest_version item)) data ->
  exists lines name_width version_width,
    Update.pretty_print_versions term data = Update.Run (Print <$> lines) (Ok tt)
    /\ Forall2
         (fun item line =>
            exists name_column version_column user_column,
              line = name_column +:+ " | " +:+ "Latest Version: " +:+ version_column
                     +:+ " | " +:+ "User Version: " +:+ user_column
              /\ name_column = Update.ljust (Update.o_framework_name item) name_width
              /\ String.length name_column = name_width
              /\ String.length version_column = version_width)
         data lines.
Proof.
  intros Hne Hall. unfold Update.pretty_print_versions.
  destruct (lengths_ok data Hall) as (lengths & Hlengths & Hlen).
  pose proof (lengths_of data lengths Hlengths) as Hof.
  destruct (Update.max_of
              (map (fun item => String.length (Update.o_framework_name item)) data))
    as [mn|e] eqn:Hmn.
  2:{ destruct data; [done | discriminate Hmn]. }
  destruct (Update.max_of lengths) as [mv|e] eqn:Hmv.
  2:{ destruct lengths; [|discriminate Hmv]. destruct data; [done|discriminate Hlen]. }
  assert (Forall (fun item => exists l, Update.latest_version item = Some l
              /\ String.length (Update.o_framework_name item) <= mn
              /\ String.length l <= mv) data) as Hbounds.
  { apply Forall_forall. intros item Hitem.
    assert (exists l, Update.latest_version item = Some l
                      /\ String.length l ∈ lengths) as (l & Hl & Hin).
    { clear -Hof Hitem. induction Hof as [|i n data lengths (l & Hl & ->) _ IH].
      - by apply elem_of_nil in Hitem.
      - apply elem_of_cons in Hitem as [->|Hitem].
        + exists l. split; [done | by left].
        + destruct (IH Hitem) as (l' & Hl' & Hin). exists l'. split; [done | by right]. }
    exists l. split; [done|]. split.
    - eapply max_of_bound; [exact Hmn|].
      apply list_elem_of_In, List.in_map_iff. exists item.
      split; [done | by apply list_elem_of_In].
    - eapply max_of_bound; eauto. }
  destruct (print_lines_columns term mn mv data Hbounds) as (lines & Hprint & Hlines).
  exists lines, mn,
    (String.length (if Update.supports_color term then Update.esc "[32m" else "")
     + String.length (if Update.supports_color term then Update.esc "[m" else "") + mv).
  split.
  - rewrite Hlengths. unfold mbind, Update.run_bind, Update.lift;
      cbn [Update.trace Update.ended].
    unfold mbind, result_bind. rewrite Hmv. cbn [Update.trace Update.ended app].
    rewrite Hprint. reflexivity.
  - clear -Hbounds Hlines.
    induction Hlines as [|item line data lines Hline _ IH]; [constructor|].
    inversion Hbounds as [|item0 data0 (l & Hl & Hn & Hv) Hrest]; subst.
    constructor; [|by apply IH].
    destruct (report_line_columns term mn mv item l Hl Hn Hv)
      as (a & b & u & Hline' & Ha & Hla & Hlb).
    rewrite Hline in Hline'. injection Hline' as ->.
    exists a, b, u. done.
Qed.

Lemma report_columns_aligned_witness :
  exists lines name_width version_width,
    Update.pretty_print_versions (Some "xterm")
      [DemoUpdate.fw_entry; DemoUpdate.only_entry]
    = Update.Run (Print <$> lines) (Ok tt)
    /\ Forall2
         (fun item line =>
            exists name_column version_column user_column,
              line = name_column +:+ " | " +:+ "Latest Version: " +:+ version_column
                     +:+ " | " +:+ "User Version: " +:+ user_column
              /\ name_column = Update.ljust (Update.o_framework_name item) name_width
              /\ String.length name_column = name_width
              /\ String.length version_column = version_width)
         [DemoUpdate.fw_entry; DemoUpdate.only_entry] lines.
Proof.
  apply (report_columns_aligned (Some "xterm")
           [DemoUpdate.fw_entry; DemoUpdate.only_entry]).
  - discriminate.
  - repeat constructor; by eexists.
Defined.

(** * The listing *)

Section SortedBy.

Import Listing.

Context {A : Type} (key : A -> string).

Local Abbreviation key_le := (Listing.key_le key).

Lemma insert_by_perm x l : insert_by key x l ≡ₚ x :: l.
Proof.
  induction l as [|y l IH]; simpl; [done|].
  destruct (String.leb _ _); [done|]. by rewrite IH, perm_swap.
Qed.

Lemma sorted_by_perm l : sorted_by key l ≡ₚ l.
Proof.
  induction l as [|x l IH]; simpl; [done|]. by rewrite insert_by_perm, IH.
Qed.

Lemma insert_by_front x l :
  Forall (key_le x) l -> insert_by key x l = x :: l.
Proof.
  intros [|y l' Hy _]; [reflexivity|]. simpl.
  unfold Listing.key_le, String.le in Hy. by destruct (String.leb (key x) (key y)).
Qed.

Lemma insert_by_sorted x l :
  StronglySorted key_le l -> StronglySorted key_le (insert_by key x l).
Proof.
  induction l as [|y l IH]; simpl; intros Hs.
  - repeat constructor.
  - apply StronglySorted_cons in Hs as [Hy Hl].
    destruct (String.leb (key x) (key y)) eqn:E.
    + assert (key_le x y) as Hxy by (unfold Listing.key_le, String.le; by rewrite E).
      apply StronglySorted_cons. split.
      * constructor; [done|]. eapply Forall_impl; [exact Hy|].
        intros z Hz. unfold Listing.key_le in *. by etrans.
      * by apply StronglySorted_cons.
    + assert (key_le y x) as Hyx.
      { unfold Listing.key_le.
        destruct (total String.le (key x) (key y)) as [H|H]; [|done].
        unfold String.le in H. rewrite E in H. done. }
      apply StronglySorted_cons. split; [|by apply IH].
      rewrite insert_by_perm. by constructor.
Qed.

Lemma sorted_by_sorted l : StronglySorted key_le (sorted_by key l).
Proof.
  induction l as [|x l IH]; simpl; [constructor|]. by apply insert_by_sorted.
Qed.

Lemma key_injective l x y :
  NoDup (key <$> l) -> x ∈ l -> y ∈ l -> key x = key y -> x = y.
Proof.
  induction l as [|z l IH]; simpl; intros Hnd Hx Hy Hk.
  - by apply elem_of_nil in Hx.
  - apply NoDup_cons in Hnd as [Hz Hnd].
    apply elem_of_cons in Hx as [->|Hx], Hy as [->|Hy]; try done.
    + destruct Hz. rewrite Hk. by apply list_elem_of_fmap_2.
    + destruct Hz. rewrite <- Hk. by apply list_elem_of_fmap_2.
    + by apply IH.
Qed.

(** With keys that are all different the sorted list does not depend on
    the order of the input. *)
Lemma sorted_by_unique l1 l2 :
  NoDup (key <$> l1) -> l1 ≡ₚ l2 -> sorted_by key l1 = sorted_by key l2.
Proof.
  intros Hnd Hperm.
  apply (StronglySorted_unique_strong key_le).
  - intros x y Hx Hy Hxy Hyx. rewrite sorted_by_perm in Hx.
    rewrite sorted_by_perm, <- Hperm in Hy.
    assert (key x = key y) as Hk.
    { unfold Listing.key_le in *. by apply (anti_symm String.le). }
    exact (key_injective l1 x y Hnd Hx Hy Hk).
  - apply sorted_by_sorted.
  - apply sorted_by_sorted.
  - by rewrite !sorted_by_perm.
Qed.

Lemma filter_insert_by (P : A -> bool) x l :
  StronglySorted key_le l ->
  List.filter P (insert_by key x l)
  = if P x then insert_by key x (List.filter P l) else List.filter P l.
Proof.
  induction l as [|y l IH]; simpl; intros Hs.
  - by destruct (P x).
  - apply StronglySorted_cons in Hs as [Hy Hl].
    destruct (String.leb (key x) (key y)) eqn:E; simpl.
    + destruct (P x) eqn:Px; [|reflexivity].
      destruct (P y) eqn:Py; simpl; [by rewrite E|].
      symmetry. apply insert_by_front.
      assert (key_le x y) as Hxy by (unfold Listing.key_le, String.le; by rewrite E).
      apply Forall_forall. intros z Hz.
      apply list_elem_of_In, List.filter_In in Hz as [Hz _].
      apply list_elem_of_In in Hz. rewrite Forall_forall in Hy.
      unfold Listing.key_le in *. etrans; [exact Hxy | by apply Hy].
    + rewrite (IH Hl). destruct (P y) eqn:Py, (P x) eqn:Px; simpl; try done.
      by rewrite E.
Qed.

Lemma filter_sorted_by (P : A -> bool) l :
  List.filter P (sorted_by key l) = sorted_by key (List.filter P l).
Proof.
  induction l as [|x l IH]; simpl; [reflexivity|].
  rewrite filter_insert_by by apply sorted_by_sorted. rewrite IH.
  by destruct (P x).
Qed.

Lemma sorted_by_map (f : A -> A) l :
  (forall x, key (f x) = key x) ->
  sorted_by key (map f l) = map f (sorted_by key l).
Proof.
  intros Hf. induction l as [|x l IH]; simpl; [reflexivity|]. rewrite IH.
  generalize (sorted_by key l). intros k.
  induction k as [|y k IHk]; simpl; [reflexivity|].
  rewrite !Hf. destruct (String.leb (key x) (key y)); simpl; [reflexivity|].
  by rewrite IHk.
Qed.

End SortedBy.

Section ListingFacts.

Import Listing.

Variable gettext : string -> string.

Lemma fold_left_ext {B C} (f g : B -> C -> B) (l : list C) :
  Forall (fun x => forall acc, f acc x = g acc x) l ->
  forall acc, fold_left f l acc = fold_left g l acc.
Proof.
  induction 1 as [|x l Hx _ IH]; intros acc; simpl; [reflexivity|].
  by rewrite Hx, IH.
Qed.

Lemma fold_left_id {B C} (f : B -> C -> B) (l : list C) acc :
  Forall (fun x => f acc x = acc) l -> fold_left f l acc = acc.
Proof.
  induction 1 as [|x l Hx _ IH]; simpl; [reflexivity|]. by rewrite Hx.
Qed.

(** Listing the available frameworks skips the ones that cannot be
    installed and treats the others as the full listing does. *)
Lemma framework_lines_available l : forall acc,
  fold_left (framework_line gettext true) l acc
  = fold_left (framework_line gettext false) (List.filter fd_is_installable l) acc.
Proof.
  induction l as [|f l IH]; intros acc; simpl; [reflexivity|].
  unfold framework_line at 2.
  destruct (fd_is_installable f) eqn:E; simpl.
  - rewrite IH. f_equal. unfold framework_line. by rewrite E.
  - apply IH.
Qed.

Lemma category_block_available acc c :
  (cd_category_name c = "main" ->
   cd_frameworks c = [] \/ Exists (fun f => fd_is_installable f = true) (cd_frameworks c)) ->
  category_block gettext true acc c
  = category_block gettext false acc (installable_only c).
Proof.
  intros Hmain. unfold category_block. simpl.
  assert ((cd_category_name c =? "main") && (length (cd_frameworks c) =? 0)%nat
          = (cd_category_name c =? "main")
            && (length (List.filter fd_is_installable (cd_frameworks c)) =? 0)%nat)
    as ->.
  { destruct (cd_category_name c =? "main") eqn:E; [|reflexivity]. simpl.
    apply String.eqb_eq in E. destruct (Hmain E) as [->|Hex]; [reflexivity|].
    destruct (cd_frameworks c) as [|f fs]; [by apply Exists_nil in Hex|].
    destruct (List.filter fd_is_installable (f :: fs)) as [|g gs] eqn:Hf;
      [|reflexivity].
    apply Exists_exists in Hex as (x & Hx & Hinst).
    assert (List.In x (List.filter fd_is_installable (f :: fs))) as Hin
      by (apply List.filter_In; split; [by apply list_elem_of_In|done]).
    rewrite Hf in Hin. destruct Hin. }
  destruct (_ && _); [reflexivity|].
  rewrite framework_lines_available, filter_sorted_by. reflexivity.
Qed.

Lemma installed_block_quiet acc c :
  Forall (fun f => fd_is_installed f = false) (cd_frameworks c) ->
  installed_block gettext acc c = acc.
Proof.
  intros H. unfold installed_block. apply fold_left_id.
  rewrite sorted_by_perm. eapply Forall_impl; [exact H|].
  intros f Hf. unfold installed_lines. by rewrite Hf.
Qed.

End ListingFacts.

(** X19: the listing does not depend on the order in which
    [list_frameworks()] gives the categories, as long as no two categories
    have the same name. *)
Theorem listing_order_independent
    (gettext : string -> string) (args : Listing.list_flags)
    (categories categories' : list Listing.category_dict) :
  NoDup (Listing.cd_category_name <$> categories) ->
  categories ≡ₚ categories' ->
  Listing.get_frameworks_list_output gettext args categories
  = Listing.get_frameworks_list_output gettext args categories'.
Proof.
  intros Hnd Hperm. unfold Listing.get_frameworks_list_output.
  by rewrite (sorted_by_unique Listing.cd_category_name categories categories').
Qed.

Lemma listing_order_independent_witness :
  Listing.get_frameworks_list_output id (DemoListing.flags true false false)
    [DemoListing.ide; DemoListing.go]
  = Listing.get_frameworks_list_output id (DemoListing.flags true false false)
      [DemoListing.go; DemoListing.ide].
Proof.
  apply (listing_order_independent id (DemoListing.flags true false false)
           [DemoListing.ide; DemoListing.go] [DemoListing.go; DemoListing.ide]).
  - apply NoDup_cons. split.
    + intros H. apply list_elem_of_singleton in H. discriminate H.
    + apply NoDup_singleton.
  - apply perm_swap.
Defined.

(** X20: asked for the installed frameworks only, when none of the
    frameworks is installed, the output is the translation of
    "No frameworks are currently installed". *)
Theorem nothing_installed_message
    (gettext : string -> string) (args : Listing.list_flags)
    (categories : list Listing.category_dict) :
  Listing.args_list args = false -> Listing.args_list_available args = false ->
  Listing.args_list_installed args = true ->
  Forall (fun c => Forall (fun f => Listing.fd_is_installed f = false)
                     (Listing.cd_frameworks c)) categories ->
  Listing.get_frameworks_list_output gettext args categories
  = gettext "No frameworks are currently installed".
Proof.
  intros Hl Ha Hi Hnone. unfold Listing.get_frameworks_list_output.
  rewrite Hl, Ha, Hi. simpl.
  rewrite fold_left_id; [reflexivity|].
  rewrite sorted_by_perm. eapply Forall_impl; [exact Hnone|].
  intros c Hc. by apply installed_block_quiet.
Qed.

Lemma nothing_installed_message_witness :
  Listing.get_frameworks_list_output id (DemoListing.flags false true false)
    [DemoListing.go; DemoListing.main_empty]
  = id "No frameworks are currently installed".
Proof.
  apply (nothing_installed_message id (DemoListing.flags false true false)
           [DemoListing.go; DemoListing.main_empty]);
    try reflexivity.
  repeat constructor.
Defined.

(** X21: the listing of the available frameworks is the full listing of
    the categories with the frameworks that cannot be installed left out,
    provided a category named [main] that has frameworks has one that can
    be installed (a [main] category is listed when it has frameworks, even
    if none of them is available). *)
Theorem list_available_is_list_of_installable
    (gettext : string -> string) (args : Listing.list_flags)
    (categories : list Listing.category_dict) :
  Listing.args_list_available args = true ->
  Forall (fun c =>
            Listing.cd_category_name c = "main" ->
            Listing.cd_frameworks c = []
            \/ Exists (fun f => Listing.fd_is_installable f = true)
                 (Listing.cd_frameworks c)) categories ->
  Listing.get_frameworks_list_output gettext args categories
  = Listing.get_frameworks_list_output gettext
      {| Listing.args_list := true; Listing.args_list_installed := false;
         Listing.args_list_available := false |}
      (map Listing.installable_only categories).
Proof.
  intros Ha Hmain. unfold Listing.get_frameworks_list_output.
  rewrite Ha, orb_true_r. simpl.
  rewrite sorted_by_map by reflexivity.
  assert (Forall (fun c =>
            Listing.cd_category_name c = "main" ->
            Listing.cd_frameworks c = []
            \/ Exists (fun f => Listing.fd_is_installable f = true)
                 (Listing.cd_frameworks c))
            (Listing.sorted_by Listing.cd_category_name categories)) as Hsorted
    by (by rewrite sorted_by_perm).
  generalize "". induction Hsorted as [|c l Hc _ IH]; intros acc; simpl;
    [reflexivity|].
  rewrite (category_block_available gettext acc c Hc). apply IH.
Qed.

Lemma list_available_is_list_of_installable_witness :
  Listing.get_frameworks_list_output id (DemoListing.flags false false true)
    [DemoListing.ide; DemoListing.main_empty; DemoListing.go]
  = Listing.get_frameworks_list_output id
      {| Listing.args_list := true; Listing.args_list_installed := false;
         Listing.args_list_available := false |}
      (map Listing.installable_only
         [DemoListing.ide; DemoListing.main_empty; DemoListing.go]).
Proof.
  apply (list_available_is_list_of_installable id
           (DemoListing.flags false false true)
           [DemoListing.ide; DemoListing.main_empty; DemoListing.go]).
  - reflexivity.
  - apply Forall_cons. split; [intros H; discriminate H|].
    apply Forall_cons. split; [intros _; by left|].
    apply Forall_cons. split; [intros H; discriminate H|].
    constructor.
Defined.

Example listing_available_main :
  Listing.get_frameworks_list_output id (DemoListing.flags false false true)
    [ {| Listing.cd_category_name := "main"; Listing.cd_category_description := "Main";
         Listing.cd_is_installed := Listing.OTHER_STATUS;
         Listing.cd_frameworks := Listing.cd_frameworks DemoListing.ide |} ]
  = "main: Main" +:+ Listing.newline +:+
    Listing.tab +:+ "pycharm: PyCharm [installed]" +:+ Listing.newline.
Proof. vm_compute. reflexivity. Qed.

(** * main *)

Lemma main_unfold
    (reg : registry) (parse_args : list string -> result Main.namespace)
    (gettext : string -> string) (version_text help_text : string)
    (list_frameworks : list Listing.category_dict) (term : option string)
    (argv : list string) :
  Main.main reg parse_args gettext version_text help_text list_frameworks term argv
  = let to_parse := arg_to_parse reg argv in
    match parse_args to_parse with
    | Raise e => Update.Run [ParseArgs to_parse] (Raise e)
    | Ok args =>
        if Listing.args_list (Parsed.listing args)
           || Listing.args_list_installed (Parsed.listing args)
           || Listing.args_list_available (Parsed.listing args) then
          Update.Run
            [ParseArgs to_parse;
             Print (Listing.get_frameworks_list_output gettext (Parsed.listing args)
                      list_frameworks)]
            (Raise (SystemExit 0))
        else if Parsed.version args then
          Update.Run [ParseArgs to_parse; Print version_text] (Raise (SystemExit 0))
        else if Parsed.update args then
          Update.Run
            (ParseArgs to_parse ::
             Update.trace
               (Update.update reg parse_args (map Main.update_view list_frameworks) term))
            (Update.ended
               (Update.update reg parse_args (map Main.update_view list_frameworks) term))
        else if negb (truthy (Parsed.category args)) then
          Update.Run [ParseArgs to_parse; Print help_text] (Raise (SystemExit 0))
        else
          Update.Run
            [ParseArgs to_parse; NewCliUI;
             RunCommandForArgs (default "" (Parsed.category args)) (Parsed.framework args)]
            (Ok tt)
    end.
Proof.
  unfold Main.main. cbv zeta.
  destruct (parse_args (arg_to_parse reg argv)) as [args|e]; [|reflexivity].
  unfold mbind, Update.run_bind, Update.run_command_for_args, Update.emit,
    Update.lift, Update.raise.
  cbn [Update.trace Update.ended app].
  destruct (_ || _); [reflexivity|].
  destruct (Parsed.version args); [reflexivity|].
  destruct (Parsed.update args); [reflexivity|].
  destruct (negb (truthy (Parsed.category args))); reflexivity.
Qed.

(** X22: whatever the arguments, the parser's answer and the installed
    frameworks, one run of [main] runs at most one install command: it
    returns normally with exactly one command run, or it ends with an
    exception (an exit among them) and has run none. *)
Theorem main_runs_at_most_one_command
    (reg : registry) (parse_args : list string -> result Main.namespace)
    (gettext : string -> string) (version_text help_text : string)
    (list_frameworks : list Listing.category_dict) (term : option string)
    (argv : list string) :
  (Update.ended
     (Main.main reg parse_args gettext version_text help_text list_frameworks term argv)
   = Ok tt
   /\ exists c f,
        Update.commands_run
          (Update.trace
             (Main.main reg parse_args gettext version_text help_text
                list_frameworks term argv))
        = [(c, f)])
  \/ (exists e,
        Update.ended
          (Main.main reg parse_args gettext version_text help_text
             list_frameworks term argv)
        = Raise e
        /\ Update.commands_run
             (Update.trace
                (Main.main reg parse_args gettext version_text help_text
                   list_frameworks term argv))
           = []).
Proof.
  rewrite main_unfold. simpl.
  destruct (parse_args (arg_to_parse reg argv)) as [args|e];
    [|right; exists e; split; reflexivity].
  destruct (_ || _); [right; exists (SystemExit 0); split; reflexivity|].
  destruct (Parsed.version args); [right; exists (SystemExit 0); split; reflexivity|].
  destruct (Parsed.update args).
  - destruct (update_command_count reg parse_args
                (map Main.update_view list_frameworks) term)
      as [[Hok (c & f & Hc)]|(e & He & Hc)].
    + left. split; [exact Hok|]. exists c, f. exact Hc.
    + right. exists e. split; [exact He | exact Hc].
  - destruct (negb (truthy (Parsed.category args)));
      [right; exists (SystemExit 0); split; reflexivity|].
    left. split; [reflexivity|]. eexists _, _. reflexivity.
Qed.

(** * The update branch: equal versions, nothing to do *)

Section UpdateEdges.

Import Update UpdateFacts.

Variable reg : registry.

Lemma never_higher_than_itself v :
  Version.is_first_version_higher (Some v) (Some v) <> Ok true.
Proof.
  unfold Version.is_first_version_higher.
  destruct (Version.parts v) as [p|e]; simpl; [|discriminate].
  by rewrite compare_parts_equal.
Qed.

(** A framework that is left out, or is not outdated, leaves the list as
    it is. *)
Lemma check_one_passes acc i :
  (category_name i = "java" \/ framework_name i = "firefox-dev"
   \/ exists cat fw,
        reg !! category_name i = Some cat /\
        frameworks cat !! framework_name i = Some fw /\
        (supports_update fw = false
         \/ outdated_check (get_latest_version fw)
              (get_current_user_version fw (install_path i)) = Ok false)) ->
  ended (check_one reg acc i) = Ok acc
  /\ commands_run (trace (check_one reg acc i)) = [].
Proof.
  intros H. split; [|apply check_one_quiet].
  destruct (decide (category_name i = "java")) as [Hj|Hj];
    [by rewrite check_one_excluded by auto|].
  destruct (decide (framework_name i = "firefox-dev")) as [Hf|Hf];
    [by rewrite check_one_excluded by auto|].
  destruct H as [H|[H|(cat & fw & Hcat & Hfw & Hcase)]]; [done..|].
  destruct (supports_update fw) eqn:Hsup.
  - destruct Hcase as [Hno|Hchk]; [discriminate|].
    rewrite (check_one_eligible reg acc i fw), Hchk; [reflexivity|].
    repeat split; try done. by exists cat.
  - unfold check_one. apply String.eqb_neq in Hj, Hf.
    by rewrite Hj, Hf, Hcat, Hfw, Hsup.
Qed.

Lemma check_all_passes installed : forall acc,
  Forall (fun i =>
            category_name i = "java" \/ framework_name i = "firefox-dev"
            \/ exists cat fw,
                 reg !! category_name i = Some cat /\
                 frameworks cat !! framework_name i = Some fw /\
                 (supports_update fw = false
                  \/ outdated_check (get_latest_version fw)
                       (get_current_user_version fw (install_path i)) = Ok false))
    installed ->
  ended (check_all reg acc installed) = Ok acc.
Proof.
  induction installed as [|i installed IH]; intros acc H; [reflexivity|].
  apply Forall_cons in H as [Hi H]. simpl.
  destruct (check_one_passes acc i Hi) as [Hend _].
  unfold mbind, run_bind. rewrite Hend. cbn [ended]. by apply IH.
Qed.

End UpdateEdges.

(** X24: an element of the list of outdated frameworks never has the same
    string as installed and as latest version: a framework whose installed
    version is its latest is not reported. *)
Theorem outdated_versions_differ
    (reg : registry) (installed : list Update.installed)
    (tr : list event) (out : list Update.outdated) (e : Update.outdated) :
  Update.check_all reg [] installed = Update.Run tr (Ok out) ->
  e ∈ out ->
  Update.user_version e <> Update.latest_version e.
Proof.
  intros H He. apply check_all_adds in H as (added & -> & Hadded).
  simpl in He. rewrite Forall_forall in Hadded.
  destruct (Hadded e He) as (i & _ & cat & fw & u & l & _ & _ & _ & _ & _ & _
                             & Hu & Hl & Hhigher).
  rewrite Hu, Hl. intros [= ->]. by apply never_higher_than_itself in Hhigher.
Qed.

Lemma outdated_versions_differ_witness :
  Update.user_version DemoUpdate.fw_entry <> Update.latest_version DemoUpdate.fw_entry.
Proof.
  apply (outdated_versions_differ Demo.reg
           (Update.installed_frameworks DemoUpdate.listed) DemoUpdate.fetches
           [DemoUpdate.fw_entry; DemoUpdate.only_entry] DemoUpdate.fw_entry).
  - vm_compute. reflexivity.
  - apply list_elem_of_In. simpl. auto.
Defined.

(** X25: when every installed framework is left out (category [java],
    [firefox-dev], no support for updates) or is found not outdated, the
    update branch runs no command, ends by printing
    "All packages are up-to-date." and exits with status 0. *)
Theorem nothing_outdated_exits_zero
    (reg : registry) (parse_args : list string -> result Parsed.namespace)
    (listed : list Update.category_info) (term : option string) :
  Forall (fun i =>
            Update.category_name i = "java" \/ Update.framework_name i = "firefox-dev"
            \/ exists cat fw,
                 reg !! Update.category_name i = Some cat /\
                 frameworks cat !! Update.framework_name i = Some fw /\
                 (supports_update fw = false
                  \/ Update.outdated_check (get_latest_version fw)
                       (get_current_user_version fw (Update.install_path i)) = Ok false))
    (Update.installed_frameworks listed) ->
  Update.ended (Update.update reg parse_args listed term) = Raise (SystemExit 0)
  /\ last (Update.trace (Update.update reg parse_args listed term))
     = Some (Print "All packages are up-to-date.")
  /\ Update.commands_run (Update.trace (Update.update reg parse_args listed term))
     = [].
Proof.
  intros H. pose proof (check_all_passes reg _ [] H) as Hend.
  pose proof (check_all_quiet reg (Update.installed_frameworks listed) []) as Hq.
  destruct (Update.check_all reg [] (Update.installed_frameworks listed))
    as [tr r] eqn:Hall. simpl in Hend, Hq. subst r.
  rewrite (update_up_to_date reg parse_args listed term tr Hall). simpl.
  split; [reflexivity|]. split; [apply last_snoc|].
  by rewrite commands_run_app, Hq.
Qed.

Lemma nothing_outdated_exits_zero_witness :
  Update.ended (Update.update Demo.reg DemoUpdate.parse_args DemoQuiet.listed None)
  = Raise (SystemExit 0)
  /\ last (Update.trace
             (Update.update Demo.reg DemoUpdate.parse_args DemoQuiet.listed None))
     = Some (Print "All packages are up-to-date.")
  /\ Update.commands_run
       (Update.trace
          (Update.update Demo.reg DemoUpdate.parse_args DemoQuiet.listed None))
     = [].
Proof.
  apply (nothing_outdated_exits_zero Demo.reg DemoUpdate.parse_args
           DemoQuiet.listed None).
  assert (Update.installed_frameworks DemoQuiet.listed
          = [ {| Update.framework_name := "dflt"; Update.install_path := "/opt/dflt";
                 Update.category_name := "cat" |} ]) as ->
    by (vm_compute; reflexivity).
  constructor; [|constructor].
  right. right. exists Demo.cat, Demo.dflt.
  split; [vm_compute; reflexivity|]. split; [vm_compute; reflexivity|].
  right. reflexivity.
Defined.
